(** * mermaid-processor: a shallow embedding of the processing pipeline

    The development follows [draft-ts/processor.ts], [draft-ts/database.ts],
    [draft-ts/config.ts] (with [types.ts]), [utils.ts] and [index.ts]:
    JavaScript strings are sequences of UTF-16 code units, the file system
    and the diagram cache live in an explicit world that the asynchronous
    functions thread through, and thrown exceptions are values. *)

From Stdlib Require Import NArith ZArith QArith Qround Lqa Ascii String List Lia.
From stdpp Require Import base option list numbers countable gmap pretty.
Import ListNotations.

Local Open Scope N_scope.
Local Open Scope list_scope.

(** ** JavaScript strings *)

(** A string value is the list of its UTF-16 code units. *)
Abbreviation jsstring := (list N).

(** Literals: every character of an (ASCII) Rocq string is one code unit. *)
Definition js (s : string) : jsstring :=
  map N_of_ascii (list_ascii_of_string s).

Definition LF : N := 10.
Definition DQUOTE : N := 34.

(** [String.prototype.substring(start, end)] for indices that are already
    non-negative integers: both are clamped to the length and swapped when
    out of order. *)
Definition substring (s : jsstring) (i j : nat) : jsstring :=
  let a := Nat.min i (length s) in
  let b := Nat.min j (length s) in
  take (Nat.max a b - Nat.min a b) (drop (Nat.min a b) s).

(** [s.startsWith(p)], also the test the regular expression engine makes
    for a literal piece of a pattern. *)
Fixpoint startsWith (p s : jsstring) : bool :=
  match p, s with
  | [], _ => true
  | _ :: _, [] => false
  | a :: p', b :: s' => if N.eqb a b then startsWith p' s' else false
  end.

(** ECMAScript WhiteSpace and LineTerminator code points, the characters
    [String.prototype.trim] strips. *)
Definition isWhiteSpace (c : N) : bool :=
  (N.leb 9 c && N.leb c 13) || N.eqb c 32 || N.eqb c 160 || N.eqb c 5760
  || (N.leb 8192 c && N.leb c 8202) || N.eqb c 8232 || N.eqb c 8233
  || N.eqb c 8239 || N.eqb c 8287 || N.eqb c 12288 || N.eqb c 65279.

Fixpoint trimStart (s : jsstring) : jsstring :=
  match s with
  | c :: s' => if isWhiteSpace c then trimStart s' else s
  | [] => []
  end.

Definition trimEnd (s : jsstring) : jsstring := rev (trimStart (rev s)).

Definition trim (s : jsstring) : jsstring := trimEnd (trimStart s).

(** Decimal rendering of a non-negative integer, as a template literal
    renders a number such as [index + 1]. *)
Definition numberToString (n : nat) : jsstring := js (pretty n).

(** ** JavaScript numbers *)

(** A number value is NaN, an infinity, or finite.  A finite number is
    modelled by the rational it denotes (every finite double is one) and the
    sum of two of them is exact: the rounding of IEEE 754 doubles and the
    sign of zero are left out.  What is stated of the chunk-building loop
    below is stated for steps of one or more, for steps of zero or less, for
    NaN and for the fractions 0.5 and 1.5 only.  The sums of an integer
    step, of 0.5 and of 1.5 are exact in doubles within the range of array
    lengths; for another step of one or more rounding can move the border
    between two chunks, and leaves what is stated (the loop ends, the chunks
    are not empty and make up the list in order) as it is, since rounding is
    monotone and the integers in that range are doubles. *)
Inductive JsNumber : Type :=
  | NaN
  | PosInfinity
  | NegInfinity
  | Finite (q : Q).

(** A length or an index as a number. *)
Definition numberOfNat (n : nat) : JsNumber := Finite (inject_Z (Z.of_nat n)).

(** [x + y] *)
Definition numberAdd (x y : JsNumber) : JsNumber :=
  match x, y with
  | NaN, _ | _, NaN => NaN
  | PosInfinity, NegInfinity | NegInfinity, PosInfinity => NaN
  | PosInfinity, _ | _, PosInfinity => PosInfinity
  | NegInfinity, _ | _, NegInfinity => NegInfinity
  | Finite a, Finite b => Finite (a + b)
  end.

Definition Qlt_bool (a b : Q) : bool := negb (Qle_bool b a).

(** [x < y] and [x <= y]: false when either side is NaN. *)
Definition numberLt (x y : JsNumber) : bool :=
  match x, y with
  | NaN, _ | _, NaN => false
  | _, NegInfinity => false
  | NegInfinity, _ => true
  | PosInfinity, _ => false
  | Finite _, PosInfinity => true
  | Finite a, Finite b => Qlt_bool a b
  end.

Definition numberLe (x y : JsNumber) : bool :=
  match x, y with
  | NaN, _ | _, NaN => false
  | NegInfinity, _ => true
  | _, PosInfinity => true
  | _, NegInfinity => false
  | PosInfinity, _ => false
  | Finite a, Finite b => Qle_bool a b
  end.

(** ToIntegerOrInfinity: NaN is 0, the infinities stay, a finite number is
    truncated towards zero. *)
Inductive IntegerOrInfinity : Type :=
  | MinusInfinity
  | Integer (z : Z)
  | PlusInfinity.

Definition truncate (q : Q) : Z := if Qle_bool 0 q then Qfloor q else Qceiling q.

Definition toIntegerOrInfinity (x : JsNumber) : IntegerOrInfinity :=
  match x with
  | NaN => Integer 0
  | PosInfinity => PlusInfinity
  | NegInfinity => MinusInfinity
  | Finite q => Integer (truncate q)
  end.

(** ** [createHash('sha256').update(content).digest('hex')] *)

Module Sha256.

(** [update] of a string hashes its UTF-8 encoding; a surrogate that has
    no partner is encoded as U+FFFD. *)
Definition isHighSurrogate (c : N) : bool := N.leb 0xD800 c && N.leb c 0xDBFF.
Definition isLowSurrogate (c : N) : bool := N.leb 0xDC00 c && N.leb c 0xDFFF.

Definition utf8CodePoint (cp : N) : list N :=
  if N.ltb cp 0x80 then [cp]
  else if N.ltb cp 0x800 then
    [N.lor 0xC0 (N.shiftr cp 6); N.lor 0x80 (N.land cp 0x3F)]
  else if N.ltb cp 0x10000 then
    [N.lor 0xE0 (N.shiftr cp 12);
     N.lor 0x80 (N.land (N.shiftr cp 6) 0x3F);
     N.lor 0x80 (N.land cp 0x3F)]
  else
    [N.lor 0xF0 (N.shiftr cp 18);
     N.lor 0x80 (N.land (N.shiftr cp 12) 0x3F);
     N.lor 0x80 (N.land (N.shiftr cp 6) 0x3F);
     N.lor 0x80 (N.land cp 0x3F)].

Fixpoint utf8 (s : jsstring) : list N :=
  match s with
  | [] => []
  | c :: s' =>
      if isHighSurrogate c then
        match s' with
        | d :: s'' =>
            if isLowSurrogate d
            then utf8CodePoint (0x10000 + (c - 0xD800) * 0x400 + (d - 0xDC00))
                   ++ utf8 s''
            else utf8CodePoint 0xFFFD ++ utf8 s'
        | [] => utf8CodePoint 0xFFFD
        end
      else if isLowSurrogate c then utf8CodePoint 0xFFFD ++ utf8 s'
      else utf8CodePoint c ++ utf8 s'
  end.

(** 32-bit words are naturals below [2^32]; addition wraps. *)
Definition wrap (x : N) : N := x mod 0x100000000.
Definition add32 (x y : N) : N := wrap (x + y).
Definition rotr (n x : N) : N :=
  N.lor (N.shiftr x n) (wrap (N.shiftl x (32 - n))).
Definition not32 (x : N) : N := N.lxor x 0xFFFFFFFF.

Definition Ch (x y z : N) := N.lxor (N.land x y) (N.land (not32 x) z).
Definition Maj (x y z : N) :=
  N.lxor (N.lxor (N.land x y) (N.land x z)) (N.land y z).
Definition bigSigma0 x := N.lxor (N.lxor (rotr 2 x) (rotr 13 x)) (rotr 22 x).
Definition bigSigma1 x := N.lxor (N.lxor (rotr 6 x) (rotr 11 x)) (rotr 25 x).
Definition smallSigma0 x := N.lxor (N.lxor (rotr 7 x) (rotr 18 x)) (N.shiftr x 3).
Definition smallSigma1 x := N.lxor (N.lxor (rotr 17 x) (rotr 19 x)) (N.shiftr x 10).

(** The round constants are the first 32 fractional bits of the cube
    roots of the first 64 primes, the initial state those of the square
    roots of the first 8 primes. *)
Definition primes : list N :=
  [2; 3; 5; 7; 11; 13; 17; 19; 23; 29; 31; 37; 41; 43; 47; 53; 59; 61; 67;
   71; 73; 79; 83; 89; 97; 101; 103; 107; 109; 113; 127; 131; 137; 139;
   149; 151; 157; 163; 167; 173; 179; 181; 191; 193; 197; 199; 211; 223;
   227; 229; 233; 239; 241; 251; 257; 263; 269; 271; 277; 281; 283; 293;
   307; 311].

Fixpoint cbrtBits (bit : nat) (n r : N) : N :=
  match bit with
  | O => r
  | S b =>
      let r' := r + N.shiftl 1 (N.of_nat b) in
      cbrtBits b n (if N.leb (r' * r' * r') n then r' else r)
  end.

Definition cubeRootFraction (p : N) : N := wrap (cbrtBits 40 (N.shiftl p 96) 0).
Definition squareRootFraction (p : N) : N := wrap (N.sqrt (N.shiftl p 64)).

Definition K : list N := Eval vm_compute in map cubeRootFraction primes.
Definition H0 : list N := Eval vm_compute in map squareRootFraction (take 8 primes).

(** Padding: the bit 1, zeros up to 56 modulo 64 bytes, the bit length
    as a 64-bit big-endian integer. *)
Definition bigEndian (bytes : nat) (x : N) : list N :=
  map (fun i => N.land (N.shiftr x (8 * N.of_nat i)) 0xFF) (rev (seq 0 bytes)).

Definition pad (msg : list N) : list N :=
  let l := length msg in
  msg ++ [0x80] ++ repeat 0 ((55 + 64 - l mod 64) mod 64)%nat
      ++ bigEndian 8 (8 * N.of_nat l).

Fixpoint wordsOf (n : nat) (bytes : list N) : list N :=
  match n with
  | O => []
  | S n' =>
      fold_left (fun acc b => acc * 256 + b) (take 4 bytes) 0
        :: wordsOf n' (drop 4 bytes)
  end.

(** The message schedule, most recent word first. *)
Fixpoint extend (n : nat) (rw : list N) : list N :=
  match n with
  | O => rw
  | S n' =>
      let w i := nth i rw 0 in
      extend n'
        (add32 (add32 (smallSigma1 (w 1%nat)) (w 6%nat))
               (add32 (smallSigma0 (w 14%nat)) (w 15%nat)) :: rw)
  end.

Definition schedule (block : list N) : list N :=
  rev (extend 48 (rev (wordsOf 16 block))).

Definition round (st : list N) (kw : N * N) : list N :=
  match st with
  | [a; b; c; d; e; f; g; h] =>
      let t1 := add32 (add32 (add32 h (bigSigma1 e)) (add32 (Ch e f g) kw.1)) kw.2 in
      let t2 := add32 (bigSigma0 a) (Maj a b c) in
      [add32 t1 t2; a; b; c; add32 d t1; e; f; g]
  | _ => st
  end.

Definition compress (st block : list N) : list N :=
  zip_with add32 st (fold_left round (zip K (schedule block)) st).

Fixpoint blocks (n : nat) (st bytes : list N) : list N :=
  match n with
  | O => st
  | S n' => blocks n' (compress st (take 64 bytes)) (drop 64 bytes)
  end.

Definition digest (msg : list N) : list N :=
  let padded := pad msg in
  blocks (length padded / 64) H0 padded.

Definition hexDigit (d : N) : N := if N.ltb d 10 then 48 + d else 87 + d.

Definition hexWord (w : N) : jsstring :=
  map (fun i => hexDigit (N.land (N.shiftr w (4 * N.of_nat i)) 0xF))
      (rev (seq 0 8)).

Definition hex (ws : list N) : jsstring := flat_map hexWord ws.

(** The characters [0-9a-f]. *)
Definition isHexDigit (c : N) : bool :=
  (N.leb 48 c && N.leb c 57) || (N.leb 97 c && N.leb c 102).

End Sha256.

(** [utils.ts]: [createContentHash]. *)
Definition createContentHash (content : jsstring) : jsstring :=
  Sha256.hex (Sha256.digest (Sha256.utf8 content)).

(** ** [utils.ts]: the Either and Maybe monads *)

Inductive Either (L R : Type) : Type :=
  | Left (value : L)
  | Right (value : R).
Arguments Left {L R} value.
Arguments Right {L R} value.

Definition either_map {L R U} (fn : R -> U) (e : Either L R) : Either L U :=
  match e with Left l => Left l | Right r => Right (fn r) end.

Definition either_flatMap {L R U} (fn : R -> Either L U) (e : Either L R)
  : Either L U :=
  match e with Left l => Left l | Right r => fn r end.

Definition either_fold {L R U} (leftFn : L -> U) (rightFn : R -> U)
    (e : Either L R) : U :=
  match e with Left l => leftFn l | Right r => rightFn r end.

Definition isLeft {L R} (e : Either L R) : bool :=
  match e with Left _ => true | Right _ => false end.

Definition isRight {L R} (e : Either L R) : bool :=
  match e with Left _ => false | Right _ => true end.

(** [Maybe<T>] wraps a nullable value: it is [option]. *)
Definition Maybe (T : Type) : Type := option T.
Definition Maybe_of {T} (value : option T) : Maybe T := value.

(** ** How a call ends

    A call returns a value, throws (an [async] function rejects) with the
    text the error prints as, or is still running when the fuel given to
    the model is spent. *)
Inductive Completion (A : Type) : Type :=
  | Returns (value : A)
  | Throws (error : jsstring)
  | Diverges.
Arguments Returns {A} value.
Arguments Throws {A} error.
Arguments Diverges {A}.

#[global] Instance Completion_ret : MRet Completion := fun _ a => Returns a.

#[global] Instance Completion_bind : MBind Completion := fun _ _ k c =>
  match c with
  | Returns a => k a
  | Throws e => Throws e
  | Diverges => Diverges
  end.

(** ** [types.ts] *)

Inductive Theme : Type :=
  | ThemeLight | ThemeDark | ThemeNeutral | ThemeForest | ThemeBase
  | ThemeDefault.

Definition themeName (t : Theme) : jsstring :=
  match t with
  | ThemeLight => js "light"
  | ThemeDark => js "dark"
  | ThemeNeutral => js "neutral"
  | ThemeForest => js "forest"
  | ThemeBase => js "base"
  | ThemeDefault => js "default"
  end.

Inductive SourceCodeStyle : Type :=
  | StyleInline | StyleBlockquote | StyleFootnote | StyleDetails | StyleNone.

#[global] Instance Theme_eq_dec : EqDecision Theme.
Proof. solve_decision. Defined.

#[global] Instance SourceCodeStyle_eq_dec : EqDecision SourceCodeStyle.
Proof. solve_decision. Defined.

(** [concurrent], a count of files, ranges over the integers among the
    JavaScript numbers; the arithmetic of the loop that uses it is exact on
    them. *)
Record ProcessorConfig : Type := {
  inputDir : jsstring;
  outputDir : jsstring;
  baseUrl : jsstring;
  defaultTheme : Theme;
  generateBothThemes : bool;
  includeSourceCode : bool;
  sourceCodeStyle : SourceCodeStyle;
  backgroundColor : jsstring;
  concurrent : JsNumber;
  skipExisting : bool;
  verbose : bool;
  dbPath : option jsstring
}.

Record ProcessingStats : Type := {
  filesProcessed : nat;
  diagramsGenerated : nat;
  diagramsSkipped : nat;
  errors : nat
}.

Module DiagramInfo.
Record t : Type := mk {
  id : jsstring;
  code : jsstring;
  altText : jsstring;
  index : nat
}.
End DiagramInfo.

Module ProcessingResult.
Record t : Type := mk {
  success : bool;
  filePath : jsstring;
  diagramsProcessed : nat;
  error : option jsstring
}.
End ProcessingResult.

(** ** [config.ts] *)

Definition defaultConfig : ProcessorConfig := {|
  inputDir := js "./public/api/articles";
  outputDir := js "./public/api/articles";
  baseUrl := js "/api/articles";
  defaultTheme := ThemeDark;
  generateBothThemes := false;
  includeSourceCode := true;
  sourceCodeStyle := StyleInline;
  backgroundColor := js "transparent";
  concurrent := Finite 2;
  skipExisting := false;
  verbose := true;
  dbPath := None
|}.

(** [Partial<ProcessorConfig>]: every field may be absent. *)
Record PartialConfig : Type := {
  inputDir' : option jsstring;
  outputDir' : option jsstring;
  baseUrl' : option jsstring;
  defaultTheme' : option Theme;
  generateBothThemes' : option bool;
  includeSourceCode' : option bool;
  sourceCodeStyle' : option SourceCodeStyle;
  backgroundColor' : option jsstring;
  concurrent' : option JsNumber;
  skipExisting' : option bool;
  verbose' : option bool;
  dbPath' : option jsstring
}.

Definition noOverrides : PartialConfig :=
  Build_PartialConfig None None None None None None None None None None None
    None.

(** [{ ...defaultConfig, ...overrides }] *)
Definition createConfig (overrides : PartialConfig) : ProcessorConfig := {|
  inputDir := default (inputDir defaultConfig) (inputDir' overrides);
  outputDir := default (outputDir defaultConfig) (outputDir' overrides);
  baseUrl := default (baseUrl defaultConfig) (baseUrl' overrides);
  defaultTheme := default (defaultTheme defaultConfig) (defaultTheme' overrides);
  generateBothThemes :=
    default (generateBothThemes defaultConfig) (generateBothThemes' overrides);
  includeSourceCode :=
    default (includeSourceCode defaultConfig) (includeSourceCode' overrides);
  sourceCodeStyle :=
    default (sourceCodeStyle defaultConfig) (sourceCodeStyle' overrides);
  backgroundColor :=
    default (backgroundColor defaultConfig) (backgroundColor' overrides);
  concurrent := default (concurrent defaultConfig) (concurrent' overrides);
  skipExisting := default (skipExisting defaultConfig) (skipExisting' overrides);
  verbose := default (verbose defaultConfig) (verbose' overrides);
  dbPath :=
    match dbPath' overrides with Some p => Some p | None => dbPath defaultConfig end
|}.

Definition withVerbose (config : ProcessorConfig) (v : bool) : ProcessorConfig := {|
  inputDir := inputDir config;
  outputDir := outputDir config;
  baseUrl := baseUrl config;
  defaultTheme := defaultTheme config;
  generateBothThemes := generateBothThemes config;
  includeSourceCode := includeSourceCode config;
  sourceCodeStyle := sourceCodeStyle config;
  backgroundColor := backgroundColor config;
  concurrent := concurrent config;
  skipExisting := skipExisting config;
  verbose := v;
  dbPath := dbPath config
|}.

(** [env] is [process.env.NODE_ENV]. *)
Definition applyEnvironmentConfig (env : option jsstring)
    (config : ProcessorConfig) : ProcessorConfig :=
  if bool_decide (env = Some (js "production")) then withVerbose config false
  else if bool_decide (env = Some (js "development")) then withVerbose config true
  else config.

(** ** The regular expression [/```mermaid\n([\s\S]*?)\n```/g] *)

Definition BACKTICKS : jsstring := js "```".
Definition fenceOpen : jsstring := js "```mermaid" ++ [LF].
Definition fenceClose : jsstring := LF :: BACKTICKS.

(** What [exec] returns on success: [index], the matched text [match[0]]
    and the captured group [match[1]]. *)
Record RegExpMatch : Type := {
  matchIndex : nat;
  match0 : jsstring;
  match1 : jsstring
}.

(** [([\s\S]*?)\n```] against [s]: the lazy group takes no character,
    then one more each time the closing fence does not follow. *)
Fixpoint lazyGroup (s : jsstring) : option jsstring :=
  if startsWith fenceClose s then Some []
  else match s with
       | [] => None
       | c :: s' => cons c <$> lazyGroup s'
       end.

(** The whole pattern anchored at the start of [s]; the capture. *)
Definition matchHere (s : jsstring) : option jsstring :=
  if startsWith fenceOpen s then lazyGroup (drop (length fenceOpen) s)
  else None.

(** The leftmost match in [s], the part of the input from index [i] on. *)
Fixpoint scanFrom (i : nat) (s : jsstring) : option RegExpMatch :=
  match matchHere s with
  | Some group =>
      Some {| matchIndex := i;
              match0 := fenceOpen ++ group ++ fenceClose;
              match1 := group |}
  | None =>
      match s with
      | [] => None
      | _ :: s' => scanFrom (S i) s'
      end
  end.

(** A regular expression object of this pattern: its mutable state is
    [lastIndex], which the [g] flag makes [exec] read and write. *)
Record RegExp : Type := { lastIndex : nat }.

Definition newRegExp : RegExp := {| lastIndex := 0 |}.

Definition exec (re : RegExp) (str : jsstring) : option RegExpMatch * RegExp :=
  if (length str <? lastIndex re)%nat then (None, {| lastIndex := 0 |})
  else
    match scanFrom (lastIndex re) (drop (lastIndex re) str) with
    | Some m => (Some m, {| lastIndex := (matchIndex m + length (match0 m))%nat |})
    | None => (None, {| lastIndex := 0 |})
    end.

(** The loop of [RegExp.prototype[Symbol.replace]] for a global pattern:
    [exec] until it returns null, the matches collected in order.  No match
    is empty, so [lastIndex] is never advanced by hand. *)
Fixpoint execLoop (fuel : nat) (rx : RegExp) (str : jsstring)
    (results : list RegExpMatch) : option (list RegExpMatch) :=
  match fuel with
  | O => None
  | S fuel' =>
      match exec rx str with
      | (None, _) => Some results
      | (Some m, rx') => execLoop fuel' rx' str (results ++ [m])
      end
  end.

Definition execAll (str : jsstring) : list RegExpMatch :=
  default [] (execLoop (S (length str)) newRegExp str []).

(** ** [processor.ts]: [extractMermaidDiagrams] *)

Definition newDiagram (index : nat) (m : RegExpMatch) : DiagramInfo.t :=
  let code := trim (match1 m) in
  let id := substring (createContentHash code) 0 8 in
  let altText := js "Mermaid diagram " ++ numberToString (index + 1) in
  DiagramInfo.mk id code altText index.

(** The [while ((match = mermaidRegex.exec(content)) !== null)] loop. *)
Fixpoint extractLoop (fuel : nat) (mermaidRegex : RegExp) (content : jsstring)
    (diagrams : list DiagramInfo.t) (index : nat)
  : option (list DiagramInfo.t) :=
  match fuel with
  | O => None
  | S fuel' =>
      match exec mermaidRegex content with
      | (None, _) => Some diagrams
      | (Some m, mermaidRegex') =>
          extractLoop fuel' mermaidRegex' content
            (diagrams ++ [newDiagram index m]) (index + 1)
      end
  end.

(** The loop ends within [length content + 1] calls of [exec]
    ([extractLoop_total] below), which makes the function total. *)
Definition extractMermaidDiagrams (content : jsstring) : list DiagramInfo.t :=
  default [] (extractLoop (S (length content)) newRegExp content [] 0).

(** ** [processor.ts]: [replaceMermaidBlocks] *)

(** [str.indexOf(pattern)] *)
Fixpoint indexOfFrom (i : nat) (pattern s : jsstring) : option nat :=
  if startsWith pattern s then Some i
  else match s with
       | [] => None
       | _ :: s' => indexOfFrom (S i) pattern s'
       end.

(** GetSubstitution for a string pattern (no capture groups): in the
    replacement text [$$] is a dollar sign, [$&] the matched text, [$`]
    what precedes it and [$'] what follows; any other [$] is literal. *)
Fixpoint getSubstitution (matched before after template : jsstring) : jsstring :=
  match template with
  | [] => []
  | c :: t =>
      match t with
      | d :: t' =>
          if negb (N.eqb c 36) then c :: getSubstitution matched before after t
          else if N.eqb d 36 then 36 :: getSubstitution matched before after t'
          else if N.eqb d 38 then matched ++ getSubstitution matched before after t'
          else if N.eqb d 96 then before ++ getSubstitution matched before after t'
          else if N.eqb d 39 then after ++ getSubstitution matched before after t'
          else c :: getSubstitution matched before after t
      | [] => [c]
      end
  end.

(** [str.replace(pattern, replacement)] with both arguments strings: only
    the first occurrence is replaced. *)
Definition stringReplace (str pattern replacement : jsstring) : jsstring :=
  match indexOfFrom 0 pattern str with
  | None => str
  | Some pos =>
      let before := take pos str in
      let after := drop (pos + length pattern) str in
      before ++ getSubstitution pattern before after replacement ++ after
  end.

(** [code.replace(/\n/g, '\n> ')] *)
Definition quoteLines (code : jsstring) : jsstring :=
  flat_map (fun c => if N.eqb c LF then LF :: js "> " else [c]) code.

(** What the [if (config.includeSourceCode && ...)] statement appends. *)
Definition sourceCodeSuffix (config : ProcessorConfig) (code : jsstring) : jsstring :=
  if includeSourceCode config
     && negb (bool_decide (sourceCodeStyle config = StyleNone))
  then
    match sourceCodeStyle config with
    | StyleInline =>
        [LF; LF] ++ fenceOpen ++ code ++ fenceClose
    | StyleDetails =>
        [LF; LF] ++ js "<details>" ++ [LF]
          ++ js "<summary>View source</summary>" ++ [LF; LF]
          ++ fenceOpen ++ code ++ fenceClose ++ [LF; LF] ++ js "</details>"
    | StyleBlockquote =>
        [LF; LF] ++ js "> ```mermaid" ++ [LF] ++ js "> " ++ quoteLines code
          ++ [LF] ++ js "> ```"
    | _ => []
    end
  else [].

Definition imageReference (altText relativePath : jsstring) : jsstring :=
  js "![" ++ altText ++ js "](" ++ relativePath ++ js ")".

(** The replacer callback; [index] is the variable it closes over, read
    before the call and written back after it. *)
Definition replacer (diagrams : list DiagramInfo.t) (svgPaths : list jsstring)
    (config : ProcessorConfig) (index : nat) (m : RegExpMatch)
  : Completion (jsstring * nat) :=
  match svgPaths !! index with
  | Some svgPath =>
      let relativePath := stringReplace svgPath (outputDir config) (baseUrl config) in
      match diagrams !! index with
      | Some diagram =>
          Returns (imageReference (DiagramInfo.altText diagram) relativePath
                     ++ sourceCodeSuffix config (match1 m),
                   (index + 1)%nat)
      | None =>
          Throws (js "TypeError: Cannot read properties of undefined (reading 'altText')")
      end
  | None => Returns (match0 m, index)
  end.

(** [String.prototype.replace] with a global pattern and a function: the
    text between matches is copied, each match gives way to what the
    function returns for it. *)
Definition replaceStep (fn : nat -> RegExpMatch -> Completion (jsstring * nat))
    (str : jsstring) (st : Completion (jsstring * nat * nat)) (m : RegExpMatch)
  : Completion (jsstring * nat * nat) :=
  '(accumulated, nextSourcePosition, index) ← st;
  '(replacement, index') ← fn index m;
  if (nextSourcePosition <=? matchIndex m)%nat
  then Returns (accumulated ++ substring str nextSourcePosition (matchIndex m)
                  ++ replacement,
                (matchIndex m + length (match0 m))%nat, index')
  else Returns (accumulated, nextSourcePosition, index').

Definition replaceMermaidBlocks (content : jsstring)
    (diagrams : list DiagramInfo.t) (svgPaths : list jsstring)
    (config : ProcessorConfig) : Completion jsstring :=
  '(accumulated, nextSourcePosition, _) ←
    fold_left (replaceStep (replacer diagrams svgPaths config) content)
      (execAll content) (Returns ([], 0%nat, 0%nat));
  Returns (accumulated ++ drop nextSourcePosition content).

(** ** The world the asynchronous functions act on *)

(** A file has its decoded text and its permissions; a directory has the
    names [readdir] lists. *)
Inductive FsNode : Type :=
  | FsFile (content : jsstring) (readable writable : bool)
  | FsDir (entries : list jsstring).

(** One invocation of the render gateway. *)
Record RenderCall : Type := {
  callCode : jsstring;
  callTheme : Theme;
  callFailed : bool
}.

(** [fs] is keyed by the path strings handed to [fs/promises];
    [databases] holds the [diagram_cache] table of every SQLite file, a
    row being [content_hash ↦ svg_path] (the two timestamps are left out);
    [nodeEnv] is [process.env.NODE_ENV].  [renderLog] and [writeLog] record,
    oldest first, the calls of the render gateway and of [writeFile] that
    went through. *)
Record World : Type := {
  fs : gmap jsstring FsNode;
  databases : gmap jsstring (gmap jsstring jsstring);
  nodeEnv : option jsstring;
  renderLog : list RenderCall;
  writeLog : list (jsstring * jsstring)
}.

Definition setFs (w : World) (fs' : gmap jsstring FsNode) : World :=
  {| fs := fs'; databases := databases w; nodeEnv := nodeEnv w;
     renderLog := renderLog w; writeLog := writeLog w |}.

Definition setDatabases (w : World)
    (dbs : gmap jsstring (gmap jsstring jsstring)) : World :=
  {| fs := fs w; databases := dbs; nodeEnv := nodeEnv w;
     renderLog := renderLog w; writeLog := writeLog w |}.

Definition logRender (w : World) (call : RenderCall) : World :=
  {| fs := fs w; databases := databases w; nodeEnv := nodeEnv w;
     renderLog := renderLog w ++ [call]; writeLog := writeLog w |}.

Definition logWrite (w : World) (path data : jsstring) : World :=
  {| fs := fs w; databases := databases w; nodeEnv := nodeEnv w;
     renderLog := renderLog w; writeLog := writeLog w ++ [(path, data)] |}.

(** An [async] function: it runs in a world, changes it, and completes.
    Awaited calls run one after the other. *)
Definition Async (A : Type) : Type := World -> Completion A * World.

#[global] Instance Async_ret : MRet Async := fun _ a w => (Returns a, w).

#[global] Instance Async_bind : MBind Async := fun _ _ k m w =>
  match m w with
  | (Returns a, w') => k a w'
  | (Throws e, w') => (Throws e, w')
  | (Diverges, w') => (Diverges, w')
  end.

Definition throw {A} (error : jsstring) : Async A := fun w => (Throws error, w).

Definition diverge {A} : Async A := fun w => (Diverges, w).

(** [try { body } catch (error) { handler }] *)
Definition tryCatch {A} (body : Async A) (handler : jsstring -> Async A)
  : Async A := fun w =>
  match body w with
  | (Throws e, w') => handler e w'
  | other => other
  end.

(** *** [fs/promises] *)

Definition quoted (path : jsstring) : jsstring := js "'" ++ path ++ js "'".

(** [readFile(path, 'utf-8')].  A path below a regular file is not told
    apart from a missing one (Node has ENOTDIR for it). *)
Definition readFile (path : jsstring) : Async jsstring := fun w =>
  match fs w !! path with
  | Some (FsFile content true _) => (Returns content, w)
  | Some (FsFile _ false _) =>
      (Throws (js "Error: EACCES: permission denied, open " ++ quoted path), w)
  | Some (FsDir _) =>
      (Throws (js "Error: EISDIR: illegal operation on a directory, read"), w)
  | None =>
      (Throws (js "Error: ENOENT: no such file or directory, open " ++ quoted path), w)
  end.

(** Writing a path that does not exist creates the file; its directory is
    taken to exist. *)
Definition writeFile (path data : jsstring) : Async unit := fun w =>
  match fs w !! path with
  | Some (FsFile _ r true) =>
      (Returns (), logWrite (setFs w (<[path := FsFile data r true]> (fs w))) path data)
  | Some (FsFile _ _ false) =>
      (Throws (js "Error: EACCES: permission denied, open " ++ quoted path), w)
  | Some (FsDir _) =>
      (Throws (js "Error: EISDIR: illegal operation on a directory, open "
                 ++ quoted path), w)
  | None =>
      (Returns (), logWrite (setFs w (<[path := FsFile data true true]> (fs w))) path data)
  end.

Definition readdir (path : jsstring) : Async (list jsstring) := fun w =>
  match fs w !! path with
  | Some (FsDir entries) => (Returns entries, w)
  | Some (FsFile _ _ _) =>
      (Throws (js "Error: ENOTDIR: not a directory, scandir " ++ quoted path), w)
  | None =>
      (Throws (js "Error: ENOENT: no such file or directory, scandir "
                 ++ quoted path), w)
  end.

(** [stat(path)], of whose result only [isDirectory()] is used. *)
Definition statIsDirectory (path : jsstring) : Async bool := fun w =>
  match fs w !! path with
  | Some (FsDir _) => (Returns true, w)
  | Some (FsFile _ _ _) => (Returns false, w)
  | None =>
      (Throws (js "Error: ENOENT: no such file or directory, stat " ++ quoted path), w)
  end.

(** *** What the program is linked with

    Node's [path] functions and the renderer behind [generateSvg].  The
    draft links the placeholder [generateSvg] below ([draftHost]); what is
    proved for every host holds for it. *)
Record Host : Type := {
  join : jsstring -> jsstring -> jsstring;
  basename : jsstring -> jsstring -> jsstring;
  extname : jsstring -> jsstring;
  renderGateway : jsstring -> Theme -> Either jsstring jsstring
}.

(** [String.prototype.toLowerCase], on the ASCII letters; no other
    character has a lower case among the characters of [.md] and [.mdx]. *)
Definition toLowerCase (s : jsstring) : jsstring :=
  map (fun c => if N.leb 65 c && N.leb c 90 then c + 32 else c) s.

Definition isMarkdownFile (host : Host) (filePath : jsstring) : bool :=
  let ext := toLowerCase (extname host filePath) in
  bool_decide (ext = js ".md") || bool_decide (ext = js ".mdx").

(** ** [processor.ts]: the file pipeline *)

(** [getMarkdownFiles]: the inner [processDirectory(currentDir)] closure,
    which appends to the shared array [files].  [forEntries] is its
    [for (const entry of entries)] loop, [recurse] the closure itself;
    [fuel] bounds the depth of the recursion. *)
Fixpoint forEntries (host : Host)
    (recurse : jsstring -> list jsstring -> Async (list jsstring))
    (currentDir : jsstring) (entries : list jsstring) (files : list jsstring)
  : Async (list jsstring) :=
  match entries with
  | [] => mret files
  | entry :: rest =>
      let fullPath := join host currentDir entry in
      isDirectory ← statIsDirectory fullPath;
      files' ← (if isDirectory : bool
                then recurse fullPath files
                else if isMarkdownFile host entry
                     then mret (files ++ [fullPath])
                     else mret files);
      forEntries host recurse currentDir rest files'
  end.

Fixpoint walkDirectory (host : Host) (fuel : nat) (currentDir : jsstring)
    (files : list jsstring) : Async (list jsstring) :=
  match fuel with
  | O => diverge
  | S fuel' =>
      entries ← readdir currentDir;
      forEntries host (walkDirectory host fuel') currentDir entries files
  end.

Definition getMarkdownFiles (host : Host) (fuel : nat) (dir : jsstring)
  : Async (list jsstring) :=
  walkDirectory host fuel dir [].

Definition attribute (name value : string) : jsstring :=
  js name ++ js "=" ++ [DQUOTE] ++ js value ++ [DQUOTE].

(** [generateSvg] as the draft has it: a placeholder that always succeeds
    ("would integrate with the actual Mermaid renderer"). *)
Definition generateSvg (diagramCode : jsstring) (theme : Theme)
  : Either jsstring jsstring :=
  Right
    (js "<svg " ++ attribute "xmlns" "http://www.w3.org/2000/svg" ++ js " "
       ++ attribute "viewBox" "0 0 200 100" ++ js ">" ++ [LF]
       ++ js "      <text " ++ attribute "x" "10" ++ js " " ++ attribute "y" "50"
       ++ js " " ++ attribute "fill" "currentColor" ++ js ">Mermaid Diagram ("
       ++ themeName theme ++ js ")</text>" ++ [LF]
       ++ js "      <text " ++ attribute "x" "10" ++ js " " ++ attribute "y" "70"
       ++ js " " ++ attribute "fill" "currentColor" ++ js " "
       ++ attribute "font-size" "12" ++ js ">" ++ substring diagramCode 0 30
       ++ js "...</text>" ++ [LF]
       ++ js "    </svg>").

(** [processDiagram]: one call of the render gateway, whatever was rendered
    before; on success the path the SVG file would be written to. *)
Definition processDiagram (host : Host) (config : ProcessorConfig)
    (diagram : DiagramInfo.t) (filePath : jsstring)
  : Async (Either jsstring jsstring) := fun w =>
  let svgResult :=
    renderGateway host (DiagramInfo.code diagram) (defaultTheme config) in
  let w' :=
    logRender w {| callCode := DiagramInfo.code diagram;
                   callTheme := defaultTheme config;
                   callFailed := isLeft svgResult |} in
  (Returns
     (either_flatMap
        (fun svg =>
           let fileName :=
             basename host filePath (extname host filePath) ++ js "-"
               ++ DiagramInfo.id diagram ++ js ".svg" in
           let outputPath := join host (outputDir config) fileName in
           Right outputPath)
        svgResult),
   w').

(** [array.join(separator)] *)
Fixpoint joinWith (separator : jsstring) (parts : list jsstring) : jsstring :=
  match parts with
  | [] => []
  | [part] => part
  | part :: rest => part ++ separator ++ joinWith separator rest
  end.

Definition processFile (host : Host) (config : ProcessorConfig)
    (filePath : jsstring) : Async ProcessingResult.t :=
  tryCatch
    (content ← readFile filePath;
     let diagrams := extractMermaidDiagrams content in
     if (length diagrams =? 0)%nat then
       mret (ProcessingResult.mk true filePath 0 None)
     else
       svgResults ← mapM (fun diagram => processDiagram host config diagram filePath)
                         diagrams;
       let errors := List.filter isLeft svgResults in
       if (0 <? length errors)%nat then
         let errorMessages :=
           joinWith (js "; ")
             (map (either_fold (fun msg => msg) (fun _ => [])) errors) in
         mret (ProcessingResult.mk false filePath 0 (Some errorMessages))
       else
         let svgPaths :=
           map (either_fold (fun _ => []) (fun path => path)) svgResults in
         updatedContent ←
           (fun w => (replaceMermaidBlocks content diagrams svgPaths config, w));
         writeFile filePath updatedContent;;
         mret (ProcessingResult.mk true filePath (length diagrams) None))
    (fun error =>
       mret (ProcessingResult.mk false filePath 0
               (Some (js "Failed to process file: " ++ error)))).

(** [Array.prototype.slice(start, end)]: both arguments go through
    ToIntegerOrInfinity; a negative index counts from the end, and both are
    clamped to the array. *)
Definition relativeIndex (len : nat) (k : IntegerOrInfinity) : nat :=
  match k with
  | MinusInfinity => 0
  | PlusInfinity => len
  | Integer z =>
      if (z <? 0)%Z then Z.to_nat (Z.max (Z.of_nat len + z) 0)
      else Z.to_nat (Z.min z (Z.of_nat len))
  end.

Definition slice {A} (l : list A) (start finish : JsNumber) : list A :=
  let from := relativeIndex (length l) (toIntegerOrInfinity start) in
  let to := relativeIndex (length l) (toIntegerOrInfinity finish) in
  take (to - from) (drop from l).

(** [for (let i = 0; i < files.length; i += config.concurrent)
       chunks.push(files.slice(i, i + config.concurrent))] *)
Fixpoint chunkLoop (fuel : nat) (files : list jsstring) (concurrent : JsNumber)
    (i : JsNumber) (chunks : list (list jsstring))
  : Completion (list (list jsstring)) :=
  match fuel with
  | O => Diverges
  | S fuel' =>
      if numberLt i (numberOfNat (length files))
      then chunkLoop fuel' files concurrent (numberAdd i concurrent)
             (chunks ++ [slice files i (numberAdd i concurrent)])
      else Returns chunks
  end.

(** [for (const chunk of chunks)]: the files of a chunk are started
    together and their results kept in the order of the chunk.  Here their
    reads, gateway calls and writes are made file after file, which is one of
    the orders in which [Promise.all] lets them happen; what is stated of a
    run below (the results and their order, the counts of gateway calls, the
    statistics) is the same in every such order. *)
Fixpoint processChunks (host : Host) (config : ProcessorConfig)
    (chunks : list (list jsstring)) (results : list ProcessingResult.t)
  : Async (list ProcessingResult.t) :=
  match chunks with
  | [] => mret results
  | chunk :: rest =>
      chunkResults ← mapM (processFile host config) chunk;
      processChunks host config rest (results ++ chunkResults)
  end.

(** The statistics computed from [results]. *)
Definition computeStats (results : list ProcessingResult.t) : ProcessingStats := {|
  filesProcessed := length results;
  diagramsGenerated :=
    fold_left
      (fun sum result =>
         (sum + (if ProcessingResult.success result
                 then ProcessingResult.diagramsProcessed result else 0))%nat)
      results 0%nat;
  diagramsSkipped := 0;
  errors :=
    length (List.filter (fun result => negb (ProcessingResult.success result))
              results)
|}.

Definition processDirectory (host : Host) (fuel : nat) (config : ProcessorConfig)
  : Async ProcessingStats :=
  files ← getMarkdownFiles host fuel (inputDir config);
  chunks ← (fun w => (chunkLoop fuel files (concurrent config) (Finite 0) [], w));
  results ← processChunks host config chunks [];
  mret (computeStats results).

(** ** [database.ts] *)

Module Database.

(** The closure variable [db]: [None] is [null], [Some file] an open
    connection to the SQLite file. *)
Definition Connection : Type := option jsstring.

(** [init]: open the database file, then
    [CREATE TABLE IF NOT EXISTS diagram_cache].  Opening fails when the
    path is a directory.  The other ways in which sqlite3 fails to open a
    path (a directory that is missing, a file that is not a database) are
    left out, and so is the file it creates in [fs] when there is none: the
    tables are kept in [databases], apart from the files. *)
Definition init (dbPath : jsstring) : Async Connection := fun w =>
  match fs w !! dbPath with
  | Some (FsDir _) =>
      (Throws (js "Error: SQLITE_CANTOPEN: unable to open database file"), w)
  | _ =>
      (Returns (Some dbPath),
       match databases w !! dbPath with
       | Some _ => w
       | None => setDatabases w (<[dbPath := ∅]> (databases w))
       end)
  end.

Definition close (db : Connection) : Async Connection := mret None.

(** [SELECT svg_path FROM diagram_cache WHERE content_hash = ?] *)
Definition checkCached (db : Connection) (hash : jsstring)
  : Async (option jsstring) := fun w =>
  match db with
  | None => (Throws (js "Error: Database not initialized"), w)
  | Some file =>
      match databases w !! file with
      | Some table => (Returns (table !! hash), w)
      | None =>
          (Throws (js "Error: SQLITE_ERROR: no such table: diagram_cache"), w)
      end
  end.

(** [INSERT OR REPLACE INTO diagram_cache ...] *)
Definition store (db : Connection) (hash path : jsstring) : Async unit := fun w =>
  match db with
  | None => (Throws (js "Error: Database not initialized"), w)
  | Some file =>
      match databases w !! file with
      | Some table =>
          (Returns (),
           setDatabases w (<[file := <[hash := path]> table]> (databases w)))
      | None =>
          (Throws (js "Error: SQLITE_ERROR: no such table: diagram_cache"), w)
      end
  end.

(** [safeDatabaseOperations]: the same operations with a rejection
    turned into a [Left]. *)
Definition safely {A} (what : string) (operation : Async A)
  : Async (Either jsstring A) :=
  tryCatch (a ← operation; mret (Right a))
           (fun error => mret (Left (js what ++ error))).

Definition safeInit (dbPath : jsstring) : Async (Either jsstring Connection) :=
  safely "Database initialization failed: " (init dbPath).

Definition safeClose (db : Connection) : Async (Either jsstring Connection) :=
  safely "Database close failed: " (close db).

Definition safeCheckCached (db : Connection) (hash : jsstring)
  : Async (Either jsstring (Maybe jsstring)) :=
  safely "Cache check failed: "
    (result ← checkCached db hash; mret (Maybe_of result)).

Definition safeStore (db : Connection) (hash path : jsstring)
  : Async (Either jsstring unit) :=
  safely "Cache store failed: " (store db hash path).

End Database.

(** ** [index.ts] *)

(** [if (config.dbPath)]: absent and empty are both falsy. *)
Definition truthyPath (p : option jsstring) : option jsstring :=
  match p with
  | Some (c :: rest) => Some (c :: rest)
  | _ => None
  end.

(** [processMermaidDiagrams].  The connection that [init] opens is not
    handed to [processDirectory].  [initResult.map(...)] is taken on a
    [Left] only, which it returns unchanged. *)
Definition processMermaidDiagrams (host : Host) (fuel : nat)
    (userConfig : PartialConfig) : Async (Either jsstring ProcessingStats) :=
  fun w =>
  let config := applyEnvironmentConfig (nodeEnv w) (createConfig userConfig) in
  tryCatch
    (initFailure ←
       match truthyPath (dbPath config) with
       | Some path =>
           initResult ← Database.safeInit path;
           mret (either_fold Some (fun _ => None) initResult)
       | None => mret None
       end;
     match initFailure with
     | Some message => mret (Left message)
     | None =>
         stats ← processDirectory host fuel config;
         mret (Right stats)
     end)
    (fun error => mret (Left (js "Processing failed: " ++ error)))
    w.

(** ** A host for running examples: POSIX paths, the placeholder renderer *)

Module Posix.

Definition SLASH : N := 47.
Definition DOT : N := 46.

Fixpoint splitAux (current : jsstring) (s : jsstring) : list jsstring :=
  match s with
  | [] => [rev current]
  | c :: s' =>
      if N.eqb c SLASH then rev current :: splitAux [] s'
      else splitAux (c :: current) s'
  end.

Definition split (s : jsstring) : list jsstring := splitAux [] s.

(** Resolve [.] and [..]; [stack] holds the kept segments, last first. *)
Fixpoint resolve (absolute : bool) (stack segments : list jsstring)
  : list jsstring :=
  match segments with
  | [] => rev stack
  | seg :: rest =>
      if bool_decide (seg = []) || bool_decide (seg = [DOT]) then
        resolve absolute stack rest
      else if bool_decide (seg = [DOT; DOT]) then
        match stack with
        | top :: stack' =>
            if bool_decide (top = [DOT; DOT])
            then resolve absolute (seg :: stack) rest
            else resolve absolute stack' rest
        | [] =>
            if absolute then resolve absolute [] rest
            else resolve absolute [seg] rest
        end
      else resolve absolute (seg :: stack) rest
  end.

Definition normalize (path : jsstring) : jsstring :=
  let absolute := startsWith [SLASH] path in
  let trailing := startsWith [SLASH] (rev path) in
  let body := joinWith [SLASH] (resolve absolute [] (split path)) in
  match body, absolute with
  | [], true => [SLASH]
  | [], false => if trailing then [DOT; SLASH] else [DOT]
  | _, _ =>
      (if absolute then [SLASH] else []) ++ body
        ++ (if trailing then [SLASH] else [])
  end.

Definition join (a b : jsstring) : jsstring :=
  match a, b with
  | [], [] => [DOT]
  | [], _ => normalize b
  | _, [] => normalize a
  | _, _ => normalize (a ++ [SLASH] ++ b)
  end.

Definition lastSegment (path : jsstring) : jsstring :=
  List.last (List.filter (fun seg => negb (bool_decide (seg = []))) (split path)) [].

Definition endsWith (suffix s : jsstring) : bool :=
  startsWith (rev suffix) (rev s).

Definition basename (path suffix : jsstring) : jsstring :=
  let name := lastSegment path in
  if bool_decide (suffix = path) && negb (bool_decide (suffix = [])) then []
  else if negb (bool_decide (suffix = [])) && endsWith suffix name
          && negb (bool_decide (suffix = name))
  then take (length name - length suffix) name
  else name.

(** The text from the last dot of the last segment on, unless that dot
    starts the segment or the segment is [..]. *)
Definition extname (path : jsstring) : jsstring :=
  let name := lastSegment path in
  match indexOfFrom 0 [DOT] (rev name) with
  | None => []
  | Some fromEnd =>
      if bool_decide (name = [DOT; DOT]) || (S fromEnd =? length name)%nat
      then []
      else drop (length name - S fromEnd) name
  end.

End Posix.

(** The program as the draft links it. *)
Definition draftHost : Host := {|
  join := Posix.join;
  basename := Posix.basename;
  extname := Posix.extname;
  renderGateway := generateSvg
|}.

(** ** Notions the properties are stated with *)

(** The matches of a global search lie in the text one after the other,
    none before position [pos]. *)
Inductive chained (str : jsstring) : nat -> list RegExpMatch -> Prop :=
  | chained_nil pos : chained str pos []
  | chained_cons pos m ms :
      (pos <= matchIndex m)%nat ->
      take (length (match0 m)) (drop (matchIndex m) str) = match0 m ->
      (matchIndex m + length (match0 m) <= length str)%nat ->
      chained str (matchIndex m + length (match0 m)) ms ->
      chained str pos (m :: ms).

(** The text with every match replaced: what lies between the matches is
    copied, each match gives way to the text paired with it. *)
Fixpoint weave (str : jsstring) (pos : nat)
    (pieces : list (RegExpMatch * jsstring)) : jsstring :=
  match pieces with
  | [] => drop pos str
  | (m, replacement) :: rest =>
      substring str pos (matchIndex m) ++ replacement
        ++ weave str (matchIndex m + length (match0 m)) rest
  end.

(** What the match at position [i] gives way to: the reference built from
    the block and the path at position [i], or the match itself when either
    is missing. *)
Definition pieceFor (diagrams : list DiagramInfo.t) (svgPaths : list jsstring)
    (config : ProcessorConfig) (i : nat) (m : RegExpMatch)
  : RegExpMatch * jsstring :=
  (m,
   match svgPaths !! i, diagrams !! i with
   | Some svgPath, Some diagram =>
       imageReference (DiagramInfo.altText diagram)
         (stringReplace svgPath (outputDir config) (baseUrl config))
         ++ sourceCodeSuffix config (match1 m)
   | _, _ => match0 m
   end).

(** The end of [String.prototype.replace]: the rest of the text is
    appended. *)
Definition finishReplace (content : jsstring)
    (st : Completion (jsstring * nat * nat)) : Completion jsstring :=
  '(accumulated, nextSourcePosition, _) ← st;
  Returns (accumulated ++ drop nextSourcePosition content).

(** [{ ...config, sourceCodeStyle: style }] *)
Definition withSourceCodeStyle (config : ProcessorConfig)
    (style : SourceCodeStyle) : ProcessorConfig := {|
  inputDir := inputDir config;
  outputDir := outputDir config;
  baseUrl := baseUrl config;
  defaultTheme := defaultTheme config;
  generateBothThemes := generateBothThemes config;
  includeSourceCode := includeSourceCode config;
  sourceCodeStyle := style;
  backgroundColor := backgroundColor config;
  concurrent := concurrent config;
  skipExisting := skipExisting config;
  verbose := verbose config;
  dbPath := dbPath config
|}.

(** The gateway call [processDiagram] makes for a block. *)
Definition renderCallOf (host : Host) (config : ProcessorConfig)
    (diagram : DiagramInfo.t) : RenderCall := {|
  callCode := DiagramInfo.code diagram;
  callTheme := defaultTheme config;
  callFailed :=
    isLeft (renderGateway host (DiagramInfo.code diagram) (defaultTheme config))
|}.

(** What [processDiagram] resolves to for a block. *)
Definition svgResultOf (host : Host) (config : ProcessorConfig)
    (filePath : jsstring) (diagram : DiagramInfo.t) : Either jsstring jsstring :=
  either_flatMap
    (fun svg =>
       Right (join host (outputDir config)
                (basename host filePath (extname host filePath) ++ js "-"
                   ++ DiagramInfo.id diagram ++ js ".svg")))
    (renderGateway host (DiagramInfo.code diagram) (defaultTheme config)).

(** The world after a sequence of gateway calls. *)
Definition logRenders (w : World) (calls : list RenderCall) : World :=
  fold_left logRender calls w.

(** [{ success: false, filePath, diagramsProcessed: 0, error: message }] *)
Definition failedResult (filePath message : jsstring) : ProcessingResult.t :=
  ProcessingResult.mk false filePath 0 (Some message).

(** Does the gateway fail on this block? *)
Definition renderFailed (host : Host) (config : ProcessorConfig)
    (diagram : DiagramInfo.t) : bool :=
  callFailed (renderCallOf host config diagram).

(** The five ways a call of [processFile] ends: the result it returns and
    the world it leaves. *)
Inductive FileOutcome (host : Host) (config : ProcessorConfig)
    (filePath : jsstring) (w : World) : ProcessingResult.t -> World -> Prop :=
  | FileUnreadable error :
      readFile filePath w = (Throws error, w) ->
      FileOutcome host config filePath w
        (failedResult filePath (js "Failed to process file: " ++ error)) w
  | FileWithoutBlocks content :
      readFile filePath w = (Returns content, w) ->
      extractMermaidDiagrams content = [] ->
      FileOutcome host config filePath w
        (ProcessingResult.mk true filePath 0 None) w
  | FileRenderFailed content :
      let diagrams := extractMermaidDiagrams content in
      readFile filePath w = (Returns content, w) ->
      existsb (renderFailed host config) diagrams = true ->
      FileOutcome host config filePath w
        (failedResult filePath
           (joinWith (js "; ")
              (map (either_fold (fun msg => msg) (fun _ => []))
                 (List.filter isLeft
                    (map (svgResultOf host config filePath) diagrams)))))
        (logRenders w (map (renderCallOf host config) diagrams))
  | FileWriteFailed content updatedContent error :
      let diagrams := extractMermaidDiagrams content in
      let w1 := logRenders w (map (renderCallOf host config) diagrams) in
      readFile filePath w = (Returns content, w) ->
      diagrams <> [] ->
      existsb (renderFailed host config) diagrams = false ->
      writeFile filePath updatedContent w1 = (Throws error, w1) ->
      FileOutcome host config filePath w
        (failedResult filePath (js "Failed to process file: " ++ error)) w1
  | FileRewritten content updatedContent w2 :
      let diagrams := extractMermaidDiagrams content in
      let w1 := logRenders w (map (renderCallOf host config) diagrams) in
      readFile filePath w = (Returns content, w) ->
      diagrams <> [] ->
      existsb (renderFailed host config) diagrams = false ->
      replaceMermaidBlocks content diagrams
        (map (either_fold (fun _ => []) (fun path => path))
           (map (svgResultOf host config filePath) diagrams)) config
      = Returns updatedContent ->
      writeFile filePath updatedContent w1 = (Returns (), w2) ->
      FileOutcome host config filePath w
        (ProcessingResult.mk true filePath (length diagrams) None) w2.


(** The gateway calls a file will cause, read off the world the file is
    processed in. *)
Definition plannedCalls (host : Host) (config : ProcessorConfig) (w : World)
    (filePath : jsstring) : list RenderCall :=
  match fs w !! filePath with
  | Some (FsFile content true _) =>
      map (renderCallOf host config) (extractMermaidDiagrams content)
  | _ => []
  end.

(** The files of a list processed one after the other. *)
Inductive FilesRun (host : Host) (config : ProcessorConfig)
  : list jsstring -> World -> list ProcessingResult.t -> World -> Prop :=
  | FilesRun_nil w : FilesRun host config [] w [] w
  | FilesRun_cons filePath files w result w1 results w2 :
      FileOutcome host config filePath w result w1 ->
      FilesRun host config files w1 results w2 ->
      FilesRun host config (filePath :: files) w (result :: results) w2.

(** The number of failed calls among [calls]. *)
Definition failedCalls (calls : list RenderCall) : nat :=
  length (List.filter callFailed calls).

(** The gateway calls logged between two worlds. *)
Definition newRenderCalls (w w' : World) : list RenderCall :=
  drop (length (renderLog w)) (renderLog w').

(** For every file of a run, in order: the result [processFile] returned
    for it and the gateway calls made while it was processed. *)
Fixpoint runTrace (host : Host) (config : ProcessorConfig)
    (files : list jsstring) (w : World)
  : list (ProcessingResult.t * list RenderCall) :=
  match files with
  | [] => []
  | filePath :: rest =>
      match processFile host config filePath w with
      | (Returns result, w1) =>
          (result, newRenderCalls w w1) :: runTrace host config rest w1
      | _ => []
      end
  end.

(** The render failures recorded while a file was processed whose result
    is a success. *)
Definition failuresInsideSuccesses
    (trace : list (ProcessingResult.t * list RenderCall)) : nat :=
  list_sum
    (map (fun entry =>
            if ProcessingResult.success entry.1 then failedCalls entry.2 else 0%nat)
         trace).

(** The number of calls for a diagram source and a theme, that is for one
    content fingerprint. *)
Definition rendersOf (code : jsstring) (theme : Theme)
    (calls : list RenderCall) : nat :=
  length (List.filter
            (fun call => bool_decide (callCode call = code)
                         && bool_decide (callTheme call = theme)) calls).

(** A text that neither starts nor ends with a white space character. *)
Definition isTrimmed (s : jsstring) : Prop :=
  match s with c :: _ => isWhiteSpace c = false | [] => True end /\
  match rev s with c :: _ => isWhiteSpace c = false | [] => True end.

(** A number that is the integer [z]. *)
Definition isInteger (c : JsNumber) (z : Z) : Prop :=
  exists q, c = Finite q /\ (q == inject_Z z)%Q.

(** The chunk-building loop as the specification words it: it ends
    exactly when [concurrent >= 1], and then the chunks are the file list
    cut in order into pieces of at most [concurrent] files. *)
Definition chunkingAsSpecified (files : list jsstring) (concurrent : JsNumber)
  : Prop :=
  ((exists fuel chunks,
       chunkLoop fuel files concurrent (Finite 0) [] = Returns chunks)
   <-> numberLe (Finite 1) concurrent = true) /\
  (numberLe (Finite 1) concurrent = true ->
   forall fuel chunks,
     chunkLoop fuel files concurrent (Finite 0) [] = Returns chunks ->
     concat chunks = files /\
     Forall (fun chunk => numberLe (numberOfNat (length chunk)) concurrent = true)
       chunks).

(** The configuration [processMermaidDiagrams] works with. *)
Definition effectiveConfig (w : World) (userConfig : PartialConfig)
  : ProcessorConfig :=
  applyEnvironmentConfig (nodeEnv w) (createConfig userConfig).

(** ** Documents, worlds and hosts of the examples *)

(** The document of the specification's first scenarios. *)
Definition scenarioDocument : jsstring := js "# T
```mermaid
graph TD
A-->B
```".

(** The document of the test "should handle empty Mermaid blocks". *)
Definition emptyBlockDocument : jsstring := js "# Empty Mermaid Block

```mermaid

```

Content after empty block.".

(** A fence whose body is three spaces. *)
Definition blankBlockDocument : jsstring := js "```mermaid
   
```".

(** A world with the given files and directories, no database, empty
    logs. *)
Definition worldOf (nodes : list (jsstring * FsNode)) : World := {|
  fs := list_to_map nodes;
  databases := ∅;
  nodeEnv := None;
  renderLog := [];
  writeLog := []
|}.

(** The overrides the tests pass: the three directories. *)
Definition overrideDirs (input output base : string) : PartialConfig := {|
  inputDir' := Some (js input);
  outputDir' := Some (js output);
  baseUrl' := Some (js base);
  defaultTheme' := None;
  generateBothThemes' := None;
  includeSourceCode' := None;
  sourceCodeStyle' := None;
  backgroundColor' := None;
  concurrent' := None;
  skipExisting' := None;
  verbose' := None;
  dbPath' := None
|}.

(** The test directory with the one document in it. *)
Definition emptyBlockWorld : World :=
  worldOf
    [(js "cypress/temp/errors", FsDir [js "empty-block.md"]);
     (js "cypress/temp/errors/empty-block.md", FsFile emptyBlockDocument true true)].

(** A document without any fence. *)
Definition plainWorld : World :=
  worldOf [(js "docs", FsDir [js "notes.md"]);
           (js "docs/notes.md", FsFile (js "# hello") true true)].

(** A renderer that rejects one diagram source. *)
Definition pickyGateway (diagramCode : jsstring) (theme : Theme)
  : Either jsstring jsstring :=
  if bool_decide (diagramCode = js "invalid syntax here")
  then Left (js "Failed to generate SVG: Error: Parse error on line 1")
  else generateSvg diagramCode theme.

(** The host of the examples with that renderer. *)
Definition pickyHost : Host := {|
  join := Posix.join;
  basename := Posix.basename;
  extname := Posix.extname;
  renderGateway := pickyGateway
|}.

(** Three blocks, the second of which the renderer rejects. *)
Definition threeBlocks : jsstring := js "# Three
```mermaid
graph TD
A-->B
```
```mermaid
invalid syntax here
```
```mermaid
graph LR
X-->Y
```".

(** A directory with that document. *)
Definition threeBlocksWorld : World :=
  worldOf [(js "docs", FsDir [js "three.md"]);
           (js "docs/three.md", FsFile threeBlocks true true)].

(** Three documents, two with one diagram each and one with none. *)
Definition mixedWorld : World :=
  worldOf [(js "docs", FsDir [js "one.md"; js "none.md"; js "sub"]);
           (js "docs/one.md", FsFile scenarioDocument true true);
           (js "docs/none.md", FsFile (js "# nothing to draw") true true);
           (js "docs/sub", FsDir [js "two.mdx"; js "notes.txt"]);
           (js "docs/sub/two.mdx", FsFile scenarioDocument true true);
           (js "docs/sub/notes.txt", FsFile scenarioDocument true true)].

(** Three paths to cut into chunks. *)
Definition threeFiles : list jsstring := [js "a.md"; js "b.md"; js "c.md"].

(** Two documents with the same diagram, a cache database that already
    has a row. *)
Definition cachedWorld : World := {|
  fs := list_to_map
          [(js "docs", FsDir [js "a.md"; js "b.md"]);
           (js "docs/a.md", FsFile scenarioDocument true true);
           (js "docs/b.md", FsFile scenarioDocument true true)];
  databases := {[ js "cache.db" := {[ js "f202f94e" := js "out/old-f202f94e.svg" ]} ]};
  nodeEnv := None;
  renderLog := [];
  writeLog := []
|}.

(** Overrides that name that database. *)
Definition cachedOverrides : PartialConfig := {|
  inputDir' := Some (js "docs");
  outputDir' := Some (js "out");
  baseUrl' := Some (js "/img");
  defaultTheme' := None;
  generateBothThemes' := None;
  includeSourceCode' := None;
  sourceCodeStyle' := Some StyleNone;
  backgroundColor' := None;
  concurrent' := None;
  skipExisting' := None;
  verbose' := None;
  dbPath' := Some (js "cache.db")
|}.

Definition cachedConfig : ProcessorConfig := createConfig cachedOverrides.

(** The same two documents and no database; the overrides name none. *)
Definition twinWorld : World :=
  worldOf [(js "docs", FsDir [js "a.md"; js "b.md"]);
           (js "docs/a.md", FsFile scenarioDocument true true);
           (js "docs/b.md", FsFile scenarioDocument true true)].

Definition twinOverrides : PartialConfig := overrideDirs "docs" "out" "/img".

(** ** The rest of [utils.ts] *)

(** [pipe(...fns)(value)]: the functions applied first to last. *)
Definition pipe {T} (fns : list (T -> T)) (value : T) : T :=
  fold_left (fun acc fn => fn acc) fns value.

(** [compose(...fns)(value)]: [reduceRight], the functions applied last to
    first. *)
Definition compose {T} (fns : list (T -> T)) (value : T) : T :=
  fold_right (fun fn acc => fn acc) value fns.

Definition curry {T U V} (fn : T -> U -> V) (a : T) (b : U) : V := fn a b.

(** The methods of [Maybe].  A function handed to [map] may itself return
    null, which [Maybe.of] wraps as it would any value: the result is then
    empty. *)
Definition Maybe_none {T} : Maybe T := None.

Definition Maybe_map {T U} (fn : T -> option U) (m : Maybe T) : Maybe U :=
  match m with
  | Some value => Maybe_of (fn value)
  | None => Maybe_none
  end.

Definition Maybe_flatMap {T U} (fn : T -> Maybe U) (m : Maybe T) : Maybe U :=
  match m with
  | Some value => fn value
  | None => Maybe_none
  end.

Definition Maybe_filter {T} (predicate : T -> bool) (m : Maybe T) : Maybe T :=
  match m with
  | Some value => if predicate value then m else Maybe_none
  | None => Maybe_none
  end.

Definition Maybe_getOrElse {T} (defaultValue : T) (m : Maybe T) : T :=
  match m with
  | Some value => value
  | None => defaultValue
  end.

Definition Maybe_isSome {T} (m : Maybe T) : bool :=
  match m with Some _ => true | None => false end.

Definition Maybe_isNone {T} (m : Maybe T) : bool :=
  match m with Some _ => false | None => true end.

(** [asyncPipe(...fns)(value)]: each function awaited on the result of the
    one before. *)
Fixpoint asyncPipe {T} (fns : list (T -> Async T)) (value : T) : Async T :=
  match fns with
  | [] => mret value
  | fn :: rest => result ← fn value; asyncPipe rest result
  end.

(** ** The rest of [processor.ts]: [analyzeFile] *)

Record FileAnalysis : Type := {
  totalMermaidBlocks : nat;
  hasUnprocessedBlocks : bool;
  needsProcessing : bool
}.

Definition analyzeFile (filePath : jsstring) : Async (Either jsstring FileAnalysis) :=
  tryCatch
    (content ← readFile filePath;
     let diagrams := extractMermaidDiagrams content in
     mret (Right {| totalMermaidBlocks := length diagrams;
                    hasUnprocessedBlocks := (0 <? length diagrams)%nat;
                    needsProcessing := (0 <? length diagrams)%nat |}))
    (fun error =>
       mret (Left (js "Failed to analyze file " ++ filePath ++ js ": " ++ error))).

(** ** The rest of [index.ts] *)

(** [createProcessingPipeline]: [asyncPipe] of the one step
    [processDirectory(config)], which takes no argument and so ignores the
    value piped in. *)
Definition createProcessingPipeline (host : Host) (fuel : nat)
    (config : ProcessorConfig) : ProcessingStats -> Async ProcessingStats :=
  asyncPipe [fun _ => processDirectory host fuel config].

(** ** Notions the further properties are stated with *)

(** [{ ...config, concurrent: c }] *)
Definition withConcurrent (config : ProcessorConfig) (c : JsNumber)
  : ProcessorConfig := {|
  inputDir := inputDir config;
  outputDir := outputDir config;
  baseUrl := baseUrl config;
  defaultTheme := defaultTheme config;
  generateBothThemes := generateBothThemes config;
  includeSourceCode := includeSourceCode config;
  sourceCodeStyle := sourceCodeStyle config;
  backgroundColor := backgroundColor config;
  concurrent := c;
  skipExisting := skipExisting config;
  verbose := verbose config;
  dbPath := dbPath config
|}.

(** [pattern] occurs in [s]. *)
Definition occursIn (pattern s : jsstring) : Prop :=
  exists before after, s = before ++ pattern ++ after.

(** The text has an opening fence line that a closing fence follows. *)
Definition hasFencedSpan (content : jsstring) : Prop :=
  exists before body after,
    content = before ++ fenceOpen ++ body ++ fenceClose ++ after.

(** The exception of the replacer for a match that has a path and no
    diagram. *)
Definition altTextTypeError : jsstring :=
  js "TypeError: Cannot read properties of undefined (reading 'altText')".

(** The statistics of a run that found nothing. *)
Definition noStats : ProcessingStats :=
  {| filesProcessed := 0; diagramsGenerated := 0; diagramsSkipped := 0;
     errors := 0 |}.

(** A path found by the walk: an entry with a Markdown name of a directory
    of the world, that is not itself a directory. *)
Definition discovered (host : Host) (w : World) (path : jsstring) : Prop :=
  exists dir entries entry,
    fs w !! dir = Some (FsDir entries) /\ In entry entries /\
    path = join host dir entry /\ isMarkdownFile host entry = true /\
    exists content readable writable,
      fs w !! path = Some (FsFile content readable writable).

(** What [processMermaidDiagrams] makes of the way [processDirectory]
    ends: statistics are wrapped in a [Right], an exception is caught and
    becomes a [Left]. *)
Definition runResult (outcome : Completion ProcessingStats * World)
  : Completion (Either jsstring ProcessingStats) * World :=
  match outcome with
  | (Returns stats, w') => (Returns (Right stats), w')
  | (Throws error, w') => (Returns (Left (js "Processing failed: " ++ error)), w')
  | (Diverges, w') => (Diverges, w')
  end.

(** ** Worlds of the further examples *)

(** A document that may be read and not written. *)
Definition readOnlyWorld : World :=
  worldOf [(js "docs", FsDir [js "locked.md"]);
           (js "docs/locked.md", FsFile scenarioDocument true false)].

(** A directory that lists a name which is not there. *)
Definition danglingWorld : World :=
  worldOf [(js "docs", FsDir [js "a.md"; js "gone.md"; js "b.md"]);
           (js "docs/a.md", FsFile scenarioDocument true true);
           (js "docs/b.md", FsFile scenarioDocument true true)].

(** Overrides that name a directory as the cache database. *)
Definition directoryAsDatabase : PartialConfig := {|
  inputDir' := Some (js "docs");
  outputDir' := Some (js "out");
  baseUrl' := Some (js "/img");
  defaultTheme' := None;
  generateBothThemes' := None;
  includeSourceCode' := None;
  sourceCodeStyle' := None;
  backgroundColor' := None;
  concurrent' := None;
  skipExisting' := None;
  verbose' := None;
  dbPath' := Some (js "docs")
|}.

(** * Properties *)

(** ** Strings and the digest *)

(** The digest on the standard test vectors, on a message of two blocks
    and on text outside ASCII. *)
Example createContentHash_empty :
  createContentHash [] =
  js "e3b0c44298fc1c149afbf4c8996fb92427ae41e4649b934ca495991b7852b855".
Proof. vm_compute. reflexivity. Qed.

Example createContentHash_abc :
  createContentHash (js "abc") =
  js "ba7816bf8f01cfea414140de5dae2223b00361a396177a9cb410ff61f20015ad".
Proof. vm_compute. reflexivity. Qed.

Example createContentHash_448_bits :
  createContentHash (js "abcdbcdecdefdefgefghfghighijhijkijkljklmklmnlmnomnopnopq") =
  js "248d6a61d20638b8e5c026930c3e6039a33ce45964ff2167f6ecedd419db06c1".
Proof. vm_compute. reflexivity. Qed.

Example createContentHash_two_blocks :
  createContentHash (repeat 97 64) =
  js "ffe054fe7ae0cb6dc65c3af9b61d5209f439851db43d0ba5997337df154668eb".
Proof. vm_compute. reflexivity. Qed.

Example createContentHash_utf8 :
  createContentHash [0xE9; 0x20AC; 0xD834; 0xDD1E] =
  js "914b44317a4e1f0850bf59894ab838a905f124a87c52930a60f3d13c40ad4a31".
Proof. vm_compute. reflexivity. Qed.

Example numberToString_12 : numberToString 12 = js "12".
Proof. vm_compute. reflexivity. Qed.

Lemma startsWith_app (p s : jsstring) :
  startsWith p s = true <-> exists rest, s = p ++ rest.
Proof.
  revert s. induction p as [|a p IH]; intros s; simpl.
  - split; [intros _; by exists s | done].
  - destruct s as [|b s].
    + split; [done | intros [rest Hrest]; discriminate].
    + destruct (N.eqb_spec a b) as [->|Hne].
      * rewrite IH. split; intros [rest Hrest]; exists rest; congruence.
      * split; [done | intros [rest Hrest]; congruence].
Qed.

Lemma substring_prefix (s : jsstring) (n : nat) : substring s 0 n = take n s.
Proof.
  unfold substring. rewrite Nat.min_0_l. simpl. rewrite Nat.sub_0_r, drop_0.
  destruct (Nat.le_ge_cases n (length s)).
  - by rewrite Nat.min_l.
  - rewrite Nat.min_r by done. by rewrite !take_ge.
Qed.

Module Sha256Facts.
Import Sha256.

Lemma round_length st kw : length (round st kw) = length st.
Proof.
  unfold round.
  repeat (destruct st as [|? st]; try reflexivity).
Qed.

Lemma rounds_length l st : length (fold_left round l st) = length st.
Proof.
  revert st. induction l as [|kw l IH]; intros st; simpl; [done|].
  by rewrite IH, round_length.
Qed.

Lemma compress_length st block : length (compress st block) = length st.
Proof.
  unfold compress. rewrite length_zip_with, rounds_length. lia.
Qed.

Lemma blocks_length n st bytes : length (blocks n st bytes) = length st.
Proof.
  revert st bytes. induction n as [|n IH]; intros st bytes; simpl; [done|].
  by rewrite IH, compress_length.
Qed.

Lemma digest_length msg : length (digest msg) = 8%nat.
Proof. unfold digest. by rewrite blocks_length. Qed.

Lemma hexDigit_hex d : d < 16 -> isHexDigit (hexDigit d) = true.
Proof.
  intros Hd. unfold hexDigit, isHexDigit.
  destruct (N.ltb_spec d 10).
  - apply orb_true_iff. left. apply andb_true_iff. split; apply N.leb_le; lia.
  - apply orb_true_iff. right. apply andb_true_iff. split; apply N.leb_le; lia.
Qed.

Lemma nibble_bound x : N.land x 0xF < 16.
Proof.
  change 0xF with (N.ones 4). rewrite N.land_ones.
  apply N.mod_lt. discriminate.
Qed.

Lemma hexWord_length w : length (hexWord w) = 8%nat.
Proof. reflexivity. Qed.

Lemma hexWord_hex w : Forall (fun c => isHexDigit c = true) (hexWord w).
Proof.
  unfold hexWord. apply Forall_map, Forall_forall. intros i _.
  apply hexDigit_hex, nibble_bound.
Qed.

Lemma hex_length ws : length (hex ws) = (8 * length ws)%nat.
Proof.
  unfold hex. induction ws as [|w ws IH]; [done|].
  change (flat_map hexWord (w :: ws)) with (hexWord w ++ flat_map hexWord ws).
  rewrite length_app, IH, hexWord_length. simpl length. lia.
Qed.

Lemma hex_hex ws : Forall (fun c => isHexDigit c = true) (hex ws).
Proof.
  unfold hex. induction ws as [|w ws IH]; [constructor|].
  change (flat_map hexWord (w :: ws)) with (hexWord w ++ flat_map hexWord ws).
  apply Forall_app. split; [apply hexWord_hex | exact IH].
Qed.

End Sha256Facts.

Lemma createContentHash_length content : length (createContentHash content) = 64%nat.
Proof.
  unfold createContentHash.
  by rewrite Sha256Facts.hex_length, Sha256Facts.digest_length.
Qed.

Lemma createContentHash_hex content :
  Forall (fun c => Sha256.isHexDigit c = true) (createContentHash content).
Proof. apply Sha256Facts.hex_hex. Qed.

(** ** Trimming *)

Lemma trimStart_fixed s :
  match s with c :: _ => isWhiteSpace c = false | [] => True end ->
  trimStart s = s.
Proof. destruct s as [|c s]; [done|]. simpl. by intros ->. Qed.

Lemma trimStart_head s :
  match trimStart s with c :: _ => isWhiteSpace c = false | [] => True end.
Proof.
  induction s as [|c s IH]; [done|].
  simpl. destruct (isWhiteSpace c) eqn:Hc; [exact IH|exact Hc].
Qed.

Lemma trimStart_keeps_last s c :
  isWhiteSpace c = false -> exists front, trimStart (s ++ [c]) = front ++ [c].
Proof.
  intros Hc. induction s as [|d s IH].
  - exists []. simpl. by rewrite Hc.
  - simpl. destruct (isWhiteSpace d); [exact IH|]. by exists (d :: s).
Qed.

Lemma trimEnd_head s c rest :
  s = c :: rest -> isWhiteSpace c = false ->
  exists rest', trimEnd s = c :: rest'.
Proof.
  intros -> Hc. unfold trimEnd. simpl rev.
  destruct (trimStart_keeps_last (rev rest) c Hc) as [front ->].
  exists (rev front). by rewrite rev_app_distr.
Qed.

Lemma trimEnd_last s :
  match rev (trimEnd s) with c :: _ => isWhiteSpace c = false | [] => True end.
Proof. unfold trimEnd. rewrite rev_involutive. apply trimStart_head. Qed.

Lemma trim_ends s :
  match trim s with c :: _ => isWhiteSpace c = false | [] => True end /\
  match rev (trim s) with c :: _ => isWhiteSpace c = false | [] => True end.
Proof.
  split; [|apply trimEnd_last].
  unfold trim. pose proof (trimStart_head s) as Hhead.
  destruct (trimStart s) as [|c rest] eqn:Hs; [done|].
  by destruct (trimEnd_head (c :: rest) c rest eq_refl Hhead) as [rest' ->].
Qed.

Lemma trim_fixed s :
  match s with c :: _ => isWhiteSpace c = false | [] => True end ->
  match rev s with c :: _ => isWhiteSpace c = false | [] => True end ->
  trim s = s.
Proof.
  intros Hhead Hlast. unfold trim, trimEnd.
  rewrite (trimStart_fixed s Hhead), (trimStart_fixed (rev s) Hlast).
  apply rev_involutive.
Qed.

(** White space around a text that has none at its ends is what [trim]
    takes away. *)
Lemma trimStart_pad pad s :
  Forall (fun c => isWhiteSpace c = true) pad -> trimStart (pad ++ s) = trimStart s.
Proof. induction 1 as [|c pad Hc _ IH]; [done|]. simpl. by rewrite Hc. Qed.

Lemma trim_pad pad1 core pad2 :
  Forall (fun c => isWhiteSpace c = true) pad1 ->
  Forall (fun c => isWhiteSpace c = true) pad2 ->
  isTrimmed core ->
  trim (pad1 ++ core ++ pad2) = core.
Proof.
  intros Hpad1 Hpad2 [Hhead Hlast]. unfold trim.
  rewrite trimStart_pad by done.
  destruct core as [|c rest].
  - cbn [app]. rewrite <- (app_nil_r pad2), trimStart_pad by done. done.
  - cbn [app]. rewrite (trimStart_fixed (c :: rest ++ pad2)) by exact Hhead.
    unfold trimEnd. change (c :: rest ++ pad2) with ((c :: rest) ++ pad2).
    rewrite rev_app_distr, trimStart_pad by (by apply Forall_rev).
    rewrite (trimStart_fixed _ Hlast). apply rev_involutive.
Qed.

(** ** The regular expression *)

Lemma lazyGroup_nil : lazyGroup [] = None.
Proof. reflexivity. Qed.

Lemma lazyGroup_cons c s :
  lazyGroup (c :: s) =
  if startsWith fenceClose (c :: s) then Some [] else cons c <$> lazyGroup s.
Proof. reflexivity. Qed.

Lemma scanFrom_nil i : scanFrom i [] = None.
Proof. reflexivity. Qed.

Lemma scanFrom_cons i c s :
  scanFrom i (c :: s) =
  match matchHere (c :: s) with
  | Some group =>
      Some {| matchIndex := i;
              match0 := fenceOpen ++ group ++ fenceClose;
              match1 := group |}
  | None => scanFrom (S i) s
  end.
Proof. reflexivity. Qed.

Opaque fenceOpen fenceClose.

Lemma lazyGroup_Some s group :
  lazyGroup s = Some group -> exists rest, s = group ++ fenceClose ++ rest.
Proof.
  revert group. induction s as [|c s IH]; intros group.
  - by rewrite lazyGroup_nil.
  - rewrite lazyGroup_cons.
    destruct (startsWith fenceClose (c :: s)) eqn:Hclose.
    + intros [= <-]. by apply startsWith_app in Hclose.
    + destruct (lazyGroup s) as [g|]; [|discriminate].
      intros [= <-]. destruct (IH g eq_refl) as [rest ->]. by exists rest.
Qed.

Lemma matchHere_Some s group :
  matchHere s = Some group -> exists rest, s = fenceOpen ++ group ++ fenceClose ++ rest.
Proof.
  unfold matchHere. destruct (startsWith fenceOpen s) eqn:Hopen; [|discriminate].
  apply startsWith_app in Hopen as [tail ->].
  rewrite drop_app_length. intros Hg.
  apply lazyGroup_Some in Hg as [rest ->]. by exists rest.
Qed.

(** A match is a piece of the input, at or after the index the search
    started from, and has the shape fence, capture, fence. *)
Lemma scanFrom_Some i s m :
  scanFrom i s = Some m ->
  match0 m = fenceOpen ++ match1 m ++ fenceClose /\
  exists pre rest,
    s = pre ++ match0 m ++ rest /\ matchIndex m = (i + length pre)%nat.
Proof.
  revert i m. induction s as [|c s IH]; intros i m.
  - by rewrite scanFrom_nil.
  - rewrite scanFrom_cons. destruct (matchHere (c :: s)) as [g|] eqn:Hg.
    + intros [= <-]. split; [reflexivity|].
      apply matchHere_Some in Hg as [rest Hrest].
      exists [], rest. split; [|simpl; lia].
      rewrite Hrest.
      change (fenceOpen ++ g ++ fenceClose ++ rest
              = (fenceOpen ++ g ++ fenceClose) ++ rest).
      by rewrite <- !app_assoc.
    + intros Hm. destruct (IH _ _ Hm) as [Hshape (pre & rest & -> & Hidx)].
      split; [done|]. exists (c :: pre), rest. split; [done|]. simpl. lia.
Qed.

Lemma exec_Some re str m re' :
  exec re str = (Some m, re') ->
  match0 m = fenceOpen ++ match1 m ++ fenceClose /\
  (lastIndex re <= matchIndex m)%nat /\
  take (length (match0 m)) (drop (matchIndex m) str) = match0 m /\
  lastIndex re' = (matchIndex m + length (match0 m))%nat /\
  (lastIndex re' <= length str)%nat /\
  (lastIndex re < lastIndex re')%nat.
Proof.
  unfold exec. destruct (Nat.ltb_spec (length str) (lastIndex re)) as [|Hle];
    [discriminate|].
  destruct (scanFrom _ _) as [m0|] eqn:Hscan; [|discriminate].
  intros [= -> <-]. cbn [lastIndex].
  apply scanFrom_Some in Hscan as [Hshape (pre & rest & Hdrop & Hidx)].
  assert (Hlen : (length str - lastIndex re
                  = length pre + (length (match0 m) + length rest))%nat).
  { rewrite <- length_drop, Hdrop. by rewrite !length_app. }
  assert (Hpos : (0 < length (match0 m))%nat).
  { rewrite Hshape, !length_app.
    assert (length fenceOpen = 11%nat) as -> by (vm_compute; reflexivity). lia. }
  repeat split; try lia; [done|].
  rewrite Hidx, <- drop_drop, Hdrop, drop_app_length.
  by rewrite take_app_length.
Qed.

Lemma execLoop_acc fuel re str results :
  execLoop fuel re str results = app results <$> execLoop fuel re str [].
Proof.
  revert re results. induction fuel as [|fuel IH]; intros re results; [done|].
  simpl. destruct (exec re str) as [[m|] re']; simpl.
  - rewrite (IH re' (results ++ [m])), (IH re' [m]).
    destruct (execLoop fuel re' str []) as [ms|]; simpl; [|done].
    by rewrite <- app_assoc.
  - by rewrite app_nil_r.
Qed.

Lemma execLoop_cons fuel re str m re' :
  exec re str = (Some m, re') ->
  execLoop (S fuel) re str [] = cons m <$> execLoop fuel re' str [].
Proof. intros Hexec. simpl. rewrite Hexec. simpl. by rewrite execLoop_acc. Qed.

(** Every successful [exec] moves [lastIndex] forward, so the loop ends
    before the fuel does. *)
Lemma execLoop_total fuel re str results :
  (length str - lastIndex re < fuel)%nat ->
  is_Some (execLoop fuel re str results).
Proof.
  revert re results. induction fuel as [|fuel IH]; intros re results Hfuel; [lia|].
  simpl. destruct (exec re str) as [[m|] re'] eqn:Hexec; [|done].
  apply IH. apply exec_Some in Hexec. lia.
Qed.

Lemma execLoop_mono fuel fuel' re str results ms :
  execLoop fuel re str results = Some ms -> (fuel <= fuel')%nat ->
  execLoop fuel' re str results = Some ms.
Proof.
  revert fuel' re results.
  induction fuel as [|fuel IH]; intros fuel' re results; [done|].
  intros Hrun Hle. destruct fuel' as [|fuel']; [lia|].
  simpl in *. destruct (exec re str) as [[m|] re']; [|done].
  apply IH; [done|lia].
Qed.

Lemma execLoop_execAll fuel str :
  (length str < fuel)%nat -> execLoop fuel newRegExp str [] = Some (execAll str).
Proof.
  intros Hfuel. unfold execAll.
  destruct (execLoop_total (S (length str)) newRegExp str []) as [ms Hms];
    [simpl; lia|].
  rewrite Hms. simpl. eapply execLoop_mono; [done|lia].
Qed.

(** ** [extractMermaidDiagrams] *)

(** The [while] loop builds one [DiagramInfo] per match, numbered in the
    order of the matches. *)
Lemma extractLoop_execLoop fuel re content diagrams index :
  extractLoop fuel re content diagrams index =
  (fun ms => diagrams ++ imap (fun k => newDiagram (index + k)) ms)
    <$> execLoop fuel re content [].
Proof.
  revert re diagrams index.
  induction fuel as [|fuel IH]; intros re diagrams index; [done|].
  destruct (exec re content) as [[m|] re'] eqn:Hexec.
  - rewrite (execLoop_cons _ _ _ _ _ Hexec). simpl. rewrite Hexec, IH.
    destruct (execLoop fuel re' content []) as [ms|]; simpl; [|done].
    rewrite <- app_assoc. simpl. rewrite Nat.add_0_r. do 3 f_equal.
    apply imap_ext. intros k x _. simpl. f_equal. lia.
  - simpl. rewrite Hexec. simpl. by rewrite app_nil_r.
Qed.

Lemma extractLoop_total content fuel :
  (length content < fuel)%nat ->
  extractLoop fuel newRegExp content [] 0 =
  Some (imap newDiagram (execAll content)).
Proof.
  intros Hfuel. rewrite extractLoop_execLoop, execLoop_execAll by done.
  reflexivity.
Qed.

Lemma extractMermaidDiagrams_execAll content :
  extractMermaidDiagrams content = imap newDiagram (execAll content).
Proof.
  unfold extractMermaidDiagrams. by rewrite extractLoop_total by lia.
Qed.

Lemma extractMermaidDiagrams_length content :
  length (extractMermaidDiagrams content) = length (execAll content).
Proof. by rewrite extractMermaidDiagrams_execAll, length_imap. Qed.

Lemma extractMermaidDiagrams_lookup content i d :
  extractMermaidDiagrams content !! i = Some d <->
  exists m, execAll content !! i = Some m /\ d = newDiagram i m.
Proof.
  rewrite extractMermaidDiagrams_execAll, list_lookup_imap.
  destruct (execAll content !! i) as [m|]; simpl.
  - split; [intros [= <-]; by exists m | by intros (m' & [= <-] & ->)].
  - split; [done | by intros (m' & ? & _)].
Qed.

(** C6 — Extraction determinism.  For every document text [T], any two
    runs of the extraction loop on [T] (each with a regular expression
    object of its own and enough fuel to finish) end and return the same
    sequence, [extractMermaidDiagrams T]; it has one block per match of the
    pattern, in the order of the matches, the block at position [i] has
    index [i], the label of number [i + 1], the trimmed capture as code, and
    as id the first 8 characters, all hexadecimal, of the SHA-256 digest of
    that code.  Trimmed: when the capture is a text without white space at
    its ends, with white space before and after it, the code is that text
    and the id the digest of that text.  SHA-256: the digest is the one the
    standard gives for its example messages (the empty message, [abc] and
    the message of 448 bits), and it is taken of the UTF-8 encoding, as on a
    text outside ASCII and outside the basic plane. *)
Theorem extraction_deterministic (T : jsstring) (fuel1 fuel2 : nat) :
  (length T < fuel1)%nat -> (length T < fuel2)%nat ->
  extractLoop fuel1 newRegExp T [] 0 = Some (extractMermaidDiagrams T) /\
  extractLoop fuel2 newRegExp T [] 0 = extractLoop fuel1 newRegExp T [] 0 /\
  length (extractMermaidDiagrams T) = length (execAll T) /\
  (forall i d, extractMermaidDiagrams T !! i = Some d ->
    DiagramInfo.index d = i /\
    DiagramInfo.altText d = js "Mermaid diagram " ++ numberToString (i + 1) /\
    (exists m, execAll T !! i = Some m /\ DiagramInfo.code d = trim (match1 m) /\
       forall pad1 core pad2,
         match1 m = pad1 ++ core ++ pad2 ->
         Forall (fun c => isWhiteSpace c = true) pad1 ->
         Forall (fun c => isWhiteSpace c = true) pad2 ->
         isTrimmed core ->
         DiagramInfo.code d = core /\
         DiagramInfo.id d = take 8 (createContentHash core)) /\
    DiagramInfo.id d = take 8 (createContentHash (DiagramInfo.code d)) /\
    length (DiagramInfo.id d) = 8%nat /\
    Forall (fun c => Sha256.isHexDigit c = true) (DiagramInfo.id d)) /\
  createContentHash [] =
  js "e3b0c44298fc1c149afbf4c8996fb92427ae41e4649b934ca495991b7852b855" /\
  createContentHash (js "abc") =
  js "ba7816bf8f01cfea414140de5dae2223b00361a396177a9cb410ff61f20015ad" /\
  createContentHash (js "abcdbcdecdefdefgefghfghighijhijkijkljklmklmnlmnomnopnopq") =
  js "248d6a61d20638b8e5c026930c3e6039a33ce45964ff2167f6ecedd419db06c1" /\
  createContentHash [0xE9; 0x20AC; 0xD834; 0xDD1E] =
  js "914b44317a4e1f0850bf59894ab838a905f124a87c52930a60f3d13c40ad4a31".
Proof.
  intros Hfuel1 Hfuel2.
  rewrite !extractLoop_total by done.
  rewrite <- extractMermaidDiagrams_execAll.
  split; [reflexivity|]. split; [reflexivity|].
  split; [apply extractMermaidDiagrams_length|].
  split.
  - intros i d Hd. apply extractMermaidDiagrams_lookup in Hd as (m & Hm & ->).
    cbn [newDiagram DiagramInfo.index DiagramInfo.altText DiagramInfo.code
         DiagramInfo.id].
    rewrite substring_prefix.
    split; [reflexivity|]. split; [reflexivity|].
    split.
    { exists m. split; [done|]. split; [done|].
      intros pad1 core pad2 -> Hpad1 Hpad2 Hcore.
      by rewrite trim_pad. }
    split; [reflexivity|]. split.
    + rewrite length_take, createContentHash_length. lia.
    + apply Forall_take, createContentHash_hex.
  - split; [exact createContentHash_empty|].
    split; [exact createContentHash_abc|].
    split; [exact createContentHash_448_bits|exact createContentHash_utf8].
Qed.

Lemma extraction_deterministic_witness :
  (length blankBlockDocument < 40)%nat /\
  extractLoop 40 newRegExp blankBlockDocument [] 0
  = Some (extractMermaidDiagrams blankBlockDocument) /\
  extractLoop 50 newRegExp blankBlockDocument [] 0
  = extractLoop 40 newRegExp blankBlockDocument [] 0 /\
  exists d,
    extractMermaidDiagrams blankBlockDocument !! 0%nat = Some d /\
    DiagramInfo.code d = [] /\
    DiagramInfo.id d = js "e3b0c442".
Proof.
  assert (H40 : (length blankBlockDocument < 40)%nat) by (vm_compute; lia).
  assert (H50 : (length blankBlockDocument < 50)%nat) by (vm_compute; lia).
  destruct (extraction_deterministic blankBlockDocument 40 50 H40 H50)
    as (Hfirst & Hsecond & _ & Hblocks & Hempty & _).
  split; [exact H40|]. split; [exact Hfirst|]. split; [exact Hsecond|].
  destruct (extractMermaidDiagrams blankBlockDocument !! 0%nat) as [d|] eqn:Hd;
    [|vm_compute in Hd; discriminate Hd].
  exists d. split; [reflexivity|].
  destruct (Hblocks 0%nat d Hd) as (_ & _ & (m & Hm & _ & Hpad) & _).
  assert (Hbody : match1 m = js "   " ++ [] ++ []).
  { vm_compute in Hm. injection Hm as <-. reflexivity. }
  destruct (Hpad _ _ _ Hbody) as [Hcode Hid].
  - repeat constructor.
  - constructor.
  - split; exact I.
  - split; [exact Hcode|]. rewrite Hid, Hempty. reflexivity.
Defined.

Example extract_scenarioDocument :
  extractMermaidDiagrams scenarioDocument =
  [DiagramInfo.mk (js "f202f94e")
     (js "graph TD" ++ [LF] ++ js "A-->B") (js "Mermaid diagram 1") 0].
Proof. vm_compute. reflexivity. Qed.

(** ** Empty blocks *)

(** C3 — Empty-body skipping, on the code.  A fenced span with an empty
    or blank body is extracted as a block whose code is the empty string
    (and whose id is the digest of the empty string); the run of the test
    "should handle empty Mermaid blocks", which expects no diagram, counts
    one generated diagram. *)
Theorem empty_block_is_extracted :
  extractMermaidDiagrams emptyBlockDocument
  = [DiagramInfo.mk (js "e3b0c442") [] (js "Mermaid diagram 1") 0] /\
  extractMermaidDiagrams blankBlockDocument
  = [DiagramInfo.mk (js "e3b0c442") [] (js "Mermaid diagram 1") 0] /\
  (processMermaidDiagrams draftHost 8
     (overrideDirs "cypress/temp/errors" "cypress/temp/errors/output" "/output")
     emptyBlockWorld).1
  = Returns (Right {| filesProcessed := 1; diagramsGenerated := 1;
                      diagramsSkipped := 0; errors := 0 |}).
Proof. repeat split; vm_compute; reflexivity. Qed.

(** ** [replaceMermaidBlocks] *)

Lemma execLoop_chained fuel re str ms :
  execLoop fuel re str [] = Some ms -> chained str (lastIndex re) ms.
Proof.
  revert re ms. induction fuel as [|fuel IH]; intros re ms; [done|].
  destruct (exec re str) as [[m|] re'] eqn:Hexec.
  - rewrite (execLoop_cons _ _ _ _ _ Hexec).
    destruct (execLoop fuel re' str []) as [ms'|] eqn:Hrest; [|done].
    intros [= <-]. apply IH in Hrest.
    apply exec_Some in Hexec as (_ & Hle & Htext & Hnext & Hend & _).
    rewrite Hnext in Hrest, Hend. by constructor.
  - simpl. rewrite Hexec. intros [= <-]. constructor.
Qed.

Lemma execAll_chained str : chained str 0 (execAll str).
Proof.
  apply (execLoop_chained (S (length str)) newRegExp).
  apply execLoop_execAll. lia.
Qed.

Lemma substring_between (s : jsstring) (i j : nat) :
  (i <= j)%nat -> (j <= length s)%nat -> substring s i j = take (j - i) (drop i s).
Proof.
  intros Hij Hj. unfold substring.
  rewrite !Nat.min_l, Nat.max_r by lia. done.
Qed.

(** Putting every match back in its place gives the text back. *)
Lemma weave_identity str pos ms :
  chained str pos ms -> (pos <= length str)%nat ->
  weave str pos (map (fun m => (m, match0 m)) ms) = drop pos str.
Proof.
  induction 1 as [pos|pos m ms Hle Htext Hend _ IH]; intros Hpos; [done|].
  simpl. rewrite IH by done. rewrite substring_between by lia.
  transitivity (take (matchIndex m - pos) (drop pos str)
                  ++ drop (matchIndex m - pos) (drop pos str));
    [|apply take_drop].
  f_equal. rewrite drop_drop.
  replace (pos + (matchIndex m - pos))%nat with (matchIndex m) by lia.
  transitivity (take (length (match0 m)) (drop (matchIndex m) str)
                  ++ drop (length (match0 m)) (drop (matchIndex m) str));
    [|apply take_drop].
  by rewrite Htext, drop_drop.
Qed.

(** The state of the replacement after [k] matches: the callback's counter
    stands at [k] until the paths run out, and stays there. *)
Lemma replace_fold content diagrams svgPaths config ms :
  forall k accumulated pos,
  chained content pos ms ->
  (forall j m, ms !! j = Some m -> is_Some (diagrams !! (k + j)%nat)) ->
  finishReplace content
    (fold_left (replaceStep (replacer diagrams svgPaths config) content) ms
       (Returns (accumulated, pos, Nat.min k (length svgPaths))))
  = Returns (accumulated
               ++ weave content pos
                    (imap (fun j => pieceFor diagrams svgPaths config (k + j)) ms)).
Proof.
  induction ms as [|m ms IH]; intros k accumulated pos Hchain Hdiagrams; [done|].
  inversion Hchain as [|? ? ? Hle Htext Hend Hrest]; subst.
  destruct (Hdiagrams 0%nat m eq_refl) as [diagram Hdiagram].
  rewrite Nat.add_0_r in Hdiagram.
  cbn [fold_left imap weave]. unfold pieceFor at 1. rewrite Nat.add_0_r, Hdiagram.
  assert (Hstep :
    replaceStep (replacer diagrams svgPaths config) content
      (Returns (accumulated, pos, Nat.min k (length svgPaths))) m
    = Returns (accumulated ++ substring content pos (matchIndex m)
                 ++ (pieceFor diagrams svgPaths config k m).2,
               (matchIndex m + length (match0 m))%nat,
               Nat.min (S k) (length svgPaths))).
  { unfold replaceStep, replacer, pieceFor. cbn [mbind Completion_bind snd].
    destruct (Nat.lt_ge_cases k (length svgPaths)) as [Hk|Hk].
    - rewrite Nat.min_l by lia.
      destruct (lookup_lt_is_Some_2 svgPaths k Hk) as [svgPath ->].
      rewrite Hdiagram. cbn [mbind Completion_bind].
      destruct (Nat.leb_spec pos (matchIndex m)); [|lia].
      repeat f_equal; lia.
    - rewrite Nat.min_r by lia.
      rewrite (lookup_ge_None_2 svgPaths (length svgPaths)) by lia.
      rewrite (lookup_ge_None_2 svgPaths k) by lia.
      cbn [mbind Completion_bind].
      destruct (Nat.leb_spec pos (matchIndex m)); [|lia].
      repeat f_equal; lia. }
  rewrite Hstep. unfold pieceFor at 1. rewrite Hdiagram. cbn [snd].
  rewrite (IH (S k)); [|done|].
  - rewrite <- !app_assoc. do 5 f_equal.
    apply imap_ext. intros j x _. simpl. f_equal. lia.
  - intros j x Hj. replace (S k + j)%nat with (k + S j)%nat by lia.
    exact (Hdiagrams (S j) x Hj).
Qed.

Lemma extractMermaidDiagrams_newDiagram content i m :
  execAll content !! i = Some m ->
  extractMermaidDiagrams content !! i = Some (newDiagram i m).
Proof. intros Hm. apply extractMermaidDiagrams_lookup. by exists m. Qed.

(** Rewriting a document with its own blocks: the weave of its matches
    with the pieces built from the blocks and the paths. *)
Lemma replaceMermaidBlocks_woven content svgPaths config :
  replaceMermaidBlocks content (extractMermaidDiagrams content) svgPaths config
  = Returns
      (weave content 0
         (imap (pieceFor (extractMermaidDiagrams content) svgPaths config)
            (execAll content))).
Proof.
  apply (replace_fold content (extractMermaidDiagrams content) svgPaths config
           (execAll content) 0%nat [] 0%nat).
  - apply execAll_chained.
  - intros j m Hm. change (0 + j)%nat with j.
    rewrite (extractMermaidDiagrams_newDiagram _ _ _ Hm). by eexists.
Qed.

(** C4 — Order preservation in the rewrite.  For every document text and
    every list of artifact paths: extraction yields one block per fenced
    span, in the order of the spans; the text is its spans woven with what
    lies between them; and the text [replaceMermaidBlocks] returns is the same
    weave in which the span at position [i] has given way to the reference
    built from the block at position [i] and the path at position [i] (or is
    kept as it is when there is no path at position [i]). *)
Theorem rewrite_preserves_order (content : jsstring) (svgPaths : list jsstring)
    (config : ProcessorConfig) :
  let blocks := extractMermaidDiagrams content in
  let spans := execAll content in
  length blocks = length spans /\
  (forall i d, blocks !! i = Some d ->
     DiagramInfo.index d = i /\
     exists m, spans !! i = Some m /\ DiagramInfo.code d = trim (match1 m)) /\
  chained content 0 spans /\
  content = weave content 0 (map (fun m => (m, match0 m)) spans) /\
  replaceMermaidBlocks content blocks svgPaths config
  = Returns (weave content 0 (imap (pieceFor blocks svgPaths config) spans)) /\
  (forall i m, spans !! i = Some m ->
     (pieceFor blocks svgPaths config i m).2
     = match svgPaths !! i with
       | Some svgPath =>
           imageReference (js "Mermaid diagram " ++ numberToString (i + 1))
             (stringReplace svgPath (outputDir config) (baseUrl config))
             ++ sourceCodeSuffix config (match1 m)
       | None => match0 m
       end).
Proof.
  intros blocks spans.
  split; [apply extractMermaidDiagrams_length|].
  split.
  { intros i d Hd. apply extractMermaidDiagrams_lookup in Hd as (m & Hm & ->).
    split; [reflexivity|]. by exists m. }
  split; [apply execAll_chained|].
  split.
  { rewrite weave_identity; [done|apply execAll_chained|lia]. }
  split; [apply replaceMermaidBlocks_woven|].
  intros i m Hm. unfold pieceFor. cbn [snd].
  rewrite (extractMermaidDiagrams_newDiagram _ _ _ Hm : blocks !! i = _).
  by destruct (svgPaths !! i).
Qed.

(** The specification's scenarios 1 and 2: the reference alone with style
    [none], followed by the fenced source with style [inline]. *)
Example rewrite_scenarioDocument_none :
  replaceMermaidBlocks scenarioDocument (extractMermaidDiagrams scenarioDocument)
    [js "./public/api/articles/t-f202f94e.svg"]
    (withSourceCodeStyle defaultConfig StyleNone)
  = Returns (js "# T
![Mermaid diagram 1](/api/articles/t-f202f94e.svg)").
Proof. vm_compute. reflexivity. Qed.

Example rewrite_scenarioDocument :
  replaceMermaidBlocks scenarioDocument (extractMermaidDiagrams scenarioDocument)
    [js "./public/api/articles/t-f202f94e.svg"] defaultConfig
  = Returns (js "# T
![Mermaid diagram 1](/api/articles/t-f202f94e.svg)

```mermaid
graph TD
A-->B
```").
Proof. vm_compute. reflexivity. Qed.

(** ** The footnote style *)

Lemma replaceStep_ext fn fn' content ms st :
  (forall index m, fn index m = fn' index m) ->
  fold_left (replaceStep fn content) ms st
  = fold_left (replaceStep fn' content) ms st.
Proof.
  intros Hext. revert st. induction ms as [|m ms IH]; intros st; [done|].
  simpl. rewrite IH. f_equal. unfold replaceStep.
  destruct st as [[[accumulated pos] index]| |]; [|done..].
  cbn [mbind Completion_bind]. by rewrite Hext.
Qed.

Lemma sourceCodeSuffix_footnote config code :
  sourceCodeSuffix (withSourceCodeStyle config StyleFootnote) code = [].
Proof. unfold sourceCodeSuffix. simpl. by destruct (includeSourceCode config). Qed.

Lemma sourceCodeSuffix_none config code :
  sourceCodeSuffix (withSourceCodeStyle config StyleNone) code = [].
Proof. unfold sourceCodeSuffix. simpl. by destruct (includeSourceCode config). Qed.

(** C8 — Footnote style equivalence.  For every document text, diagram
    list, artifact-path list and configuration, the rewrite with
    [sourceCodeStyle = 'footnote'] completes exactly as the rewrite with
    [sourceCodeStyle = 'none'], the other fields being the same: the same
    text, or the same exception. *)
Theorem footnote_same_as_none (content : jsstring)
    (diagrams : list DiagramInfo.t) (svgPaths : list jsstring)
    (config : ProcessorConfig) :
  replaceMermaidBlocks content diagrams svgPaths
    (withSourceCodeStyle config StyleFootnote)
  = replaceMermaidBlocks content diagrams svgPaths
      (withSourceCodeStyle config StyleNone).
Proof.
  unfold replaceMermaidBlocks. f_equal. apply replaceStep_ext.
  intros index m. unfold replacer.
  by rewrite sourceCodeSuffix_footnote, sourceCodeSuffix_none.
Qed.

(** ** [processFile] *)

Arguments js : simpl never.
Arguments extractMermaidDiagrams : simpl never.
Arguments replaceMermaidBlocks : simpl never.

Lemma logRenders_fields w calls :
  fs (logRenders w calls) = fs w /\
  databases (logRenders w calls) = databases w /\
  nodeEnv (logRenders w calls) = nodeEnv w /\
  writeLog (logRenders w calls) = writeLog w /\
  renderLog (logRenders w calls) = renderLog w ++ calls.
Proof.
  revert w. induction calls as [|call calls IH]; intros w.
  - by rewrite app_nil_r.
  - change (logRenders w (call :: calls))
      with (logRenders (logRender w call) calls).
    destruct (IH (logRender w call)) as (-> & -> & -> & -> & ->).
    simpl. by rewrite <- app_assoc.
Qed.

Lemma isLeft_svgResultOf host config filePath diagram :
  isLeft (svgResultOf host config filePath diagram)
  = callFailed (renderCallOf host config diagram).
Proof.
  unfold svgResultOf, renderCallOf. simpl.
  by destruct (renderGateway host _ _).
Qed.

Lemma mapM_processDiagram host config filePath diagrams w :
  mapM (fun diagram => processDiagram host config diagram filePath) diagrams w
  = (Returns (map (svgResultOf host config filePath) diagrams),
     logRenders w (map (renderCallOf host config) diagrams)).
Proof.
  revert w. induction diagrams as [|d diagrams IH]; intros w; [done|].
  cbn [mapM map]. unfold mbind at 1, Async_bind at 1.
  unfold processDiagram at 1. unfold mbind at 1, Async_bind at 1.
  change (fix go (l : list DiagramInfo.t) : Async (list (Either jsstring jsstring)) :=
            match l with
            | [] => mret []
            | x :: l0 =>
                processDiagram host config x filePath ≫= λ y, go l0 ≫= λ k, mret (y :: k)
            end)
    with (mapM (fun diagram => processDiagram host config diagram filePath)).
  rewrite IH. reflexivity.
Qed.

Lemma readFile_cases path w :
  (exists content, readFile path w = (Returns content, w)) \/
  (exists error, readFile path w = (Throws error, w)).
Proof.
  unfold readFile.
  destruct (fs w !! path) as [[content [] wr|entries]|]; eauto.
Qed.

Lemma writeFile_cases path data w :
  (exists w2, writeFile path data w = (Returns (), w2)) \/
  (exists error, writeFile path data w = (Throws error, w)).
Proof.
  unfold writeFile.
  destruct (fs w !! path) as [[content r []|entries]|]; eauto.
Qed.

Lemma filter_isLeft_length host config filePath diagrams :
  (0 <? length (List.filter isLeft (map (svgResultOf host config filePath) diagrams)))%nat
  = existsb (renderFailed host config) diagrams.
Proof.
  induction diagrams as [|d diagrams IH]; [done|].
  cbn [map List.filter existsb]. rewrite isLeft_svgResultOf.
  unfold renderFailed at 1.
  destruct (callFailed (renderCallOf host config d)); [done|exact IH].
Qed.

(** A rewrite of a document with its own blocks and one path per block
    does not throw. *)
Lemma replaceMermaidBlocks_returns content svgPaths config :
  exists updatedContent,
    replaceMermaidBlocks content (extractMermaidDiagrams content) svgPaths config
    = Returns updatedContent.
Proof.
  eexists. apply replaceMermaidBlocks_woven.
Qed.

Lemma processFile_outcome host config filePath w :
  exists result w',
    processFile host config filePath w = (Returns result, w') /\
    FileOutcome host config filePath w result w'.
Proof.
  unfold processFile, tryCatch. unfold mbind at 1, Async_bind at 1.
  destruct (readFile_cases filePath w) as [[content Hread]|[error Hread]];
    rewrite Hread.
  2:{ eexists _, _. split; [reflexivity|]. by apply FileUnreadable. }
  destruct (Nat.eqb_spec (length (extractMermaidDiagrams content)) 0)
    as [Hnone|Hsome].
  { eexists _, _. split; [reflexivity|].
    eapply FileWithoutBlocks; [done|]. by apply nil_length_inv. }
  assert (Hblocks : extractMermaidDiagrams content <> []).
  { intros Hnil. by rewrite Hnil in Hsome. }
  unfold mbind at 1, Async_bind at 1.
  rewrite mapM_processDiagram, filter_isLeft_length.
  destruct (existsb (renderFailed host config) (extractMermaidDiagrams content))
    eqn:Hfailed.
  { eexists _, _. split; [reflexivity|]. by apply FileRenderFailed. }
  unfold mbind at 1, Async_bind at 1.
  destruct (replaceMermaidBlocks_returns content
              (map (either_fold (fun _ => []) (fun path => path))
                 (map (svgResultOf host config filePath)
                    (extractMermaidDiagrams content))) config)
    as [updatedContent Hupdated].
  rewrite Hupdated. unfold mbind at 1, Async_bind at 1.
  destruct (writeFile_cases filePath updatedContent
              (logRenders w (map (renderCallOf host config)
                               (extractMermaidDiagrams content))))
    as [[w2 Hwrite]|[error Hwrite]]; rewrite Hwrite.
  - eexists _, _. split; [reflexivity|]. by eapply FileRewritten.
  - eexists _, _. split; [reflexivity|]. by eapply FileWriteFailed.
Qed.

Lemma readFile_readable path w content writable :
  fs w !! path = Some (FsFile content true writable) ->
  readFile path w = (Returns content, w).
Proof. intros Hfile. unfold readFile. by rewrite Hfile. Qed.

(** C7 — Zero-block document frame property.  For every readable document
    from which extraction yields no block, [processFile] returns
    [success = true] with [diagramsProcessed = 0] and leaves the world as it
    was: the file keeps its contents, no write is made (and nothing is
    rendered). *)
Theorem zero_blocks_leave_file_unchanged (host : Host) (config : ProcessorConfig)
    (filePath : jsstring) (w : World) (content : jsstring) (writable : bool) :
  fs w !! filePath = Some (FsFile content true writable) ->
  extractMermaidDiagrams content = [] ->
  processFile host config filePath w
  = (Returns (ProcessingResult.mk true filePath 0 None), w).
Proof.
  intros Hfile Hblocks. unfold processFile, tryCatch.
  unfold mbind at 1, Async_bind at 1.
  rewrite (readFile_readable _ _ _ _ Hfile), Hblocks. reflexivity.
Qed.

Lemma zero_blocks_leave_file_unchanged_witness :
  processFile draftHost defaultConfig (js "docs/notes.md") plainWorld
  = (Returns (ProcessingResult.mk true (js "docs/notes.md") 0 None), plainWorld).
Proof.
  apply (zero_blocks_leave_file_unchanged draftHost defaultConfig
           (js "docs/notes.md") plainWorld (js "# hello") true).
  - vm_compute. reflexivity.
  - vm_compute. reflexivity.
Defined.

(** ** Runs over several files *)

Lemma bind_Returns_inv {A B} (m : Async A) (k : A -> Async B) w b w' :
  (m ≫= k) w = (Returns b, w') ->
  exists a w1, m w = (Returns a, w1) /\ k a w1 = (Returns b, w').
Proof.
  unfold mbind, Async_bind. destruct (m w) as [[a| |] w1]; [eauto|done..].
Qed.

Lemma bind_Returns {A B} (m : Async A) (k : A -> Async B) w a w1 :
  m w = (Returns a, w1) -> (m ≫= k) w = k a w1.
Proof. intros Hm. unfold mbind, Async_bind. by rewrite Hm. Qed.

Lemma mapM_cons {A B} (f : A -> Async B) x l w :
  mapM f (x :: l) w = (y ← f x; k ← mapM f l; mret (y :: k)) w.
Proof. reflexivity. Qed.

Lemma readFile_Returns_inv path w content w' :
  readFile path w = (Returns content, w') ->
  w' = w /\ exists writable, fs w !! path = Some (FsFile content true writable).
Proof.
  unfold readFile.
  destruct (fs w !! path) as [[c [] wr|entries]|]; try done.
  intros [= -> ->]. eauto.
Qed.

Lemma readFile_Throws_inv path w error w' :
  readFile path w = (Throws error, w') ->
  forall content writable, fs w !! path <> Some (FsFile content true writable).
Proof.
  unfold readFile.
  destruct (fs w !! path) as [[c [] wr|entries]|]; try done.
Qed.

Lemma writeFile_Returns_inv path data w w2 :
  writeFile path data w = (Returns (), w2) ->
  (exists readable, fs w2 = <[path := FsFile data readable true]> (fs w)) /\
  databases w2 = databases w /\ nodeEnv w2 = nodeEnv w /\
  renderLog w2 = renderLog w /\ writeLog w2 = writeLog w ++ [(path, data)].
Proof.
  unfold writeFile.
  destruct (fs w !! path) as [[c r []|entries]|]; try done;
    intros [= <-]; simpl; eauto 10.
Qed.

Lemma existsb_false_Forall host config diagrams :
  existsb (renderFailed host config) diagrams = false ->
  Forall (fun call => callFailed call = false)
    (map (renderCallOf host config) diagrams).
Proof.
  induction diagrams as [|d diagrams IH]; [constructor|].
  cbn [existsb map]. intros [Hd Hrest]%orb_false_iff.
  constructor; [exact Hd|by apply IH].
Qed.

Lemma FileOutcome_effects host config filePath w result w1 :
  FileOutcome host config filePath w result w1 ->
  ProcessingResult.filePath result = filePath /\
  databases w1 = databases w /\
  nodeEnv w1 = nodeEnv w /\
  renderLog w1 = renderLog w ++ plannedCalls host config w filePath /\
  (forall path, path <> filePath -> fs w1 !! path = fs w !! path) /\
  (ProcessingResult.success result = true ->
   Forall (fun call => callFailed call = false)
     (plannedCalls host config w filePath)).
Proof.
  unfold plannedCalls.
  destruct 1 as [error Hread|content Hread Hnone|content diagrams Hread Hfailed
                |content updated error diagrams w1 Hread Hsome Hfine Hwrite
                |content updated w2 diagrams w1 Hread Hsome Hfine Hupdated Hwrite].
  - pose proof (readFile_Throws_inv _ _ _ _ Hread) as Hnot.
    destruct (fs w !! filePath) as [[c [] wr|entries]|];
      [by destruct (Hnot c wr)|..]; rewrite app_nil_r; by repeat split.
  - apply readFile_Returns_inv in Hread as [_ [wr ->]].
    rewrite Hnone, app_nil_r. by repeat split.
  - apply readFile_Returns_inv in Hread as [_ [wr ->]]. subst diagrams.
    destruct (logRenders_fields w
                (map (renderCallOf host config) (extractMermaidDiagrams content)))
      as (Hfs & Hdb & Henv & _ & Hlog).
    repeat split; try done. intros path _. by rewrite Hfs.
  - apply readFile_Returns_inv in Hread as [_ [wr ->]]. subst w1 diagrams.
    destruct (logRenders_fields w
                (map (renderCallOf host config) (extractMermaidDiagrams content)))
      as (Hfs & Hdb & Henv & _ & Hlog).
    repeat split; try done. intros path _. by rewrite Hfs.
  - apply readFile_Returns_inv in Hread as [_ [wr ->]]. subst w1 diagrams.
    destruct (logRenders_fields w
                (map (renderCallOf host config) (extractMermaidDiagrams content)))
      as (Hfs & Hdb & Henv & _ & Hlog).
    apply writeFile_Returns_inv in Hwrite
      as ([r Hfs2] & Hdb2 & Henv2 & Hlog2 & _).
    repeat split; try congruence.
    + intros path Hpath. rewrite Hfs2, lookup_insert_ne by done.
      by rewrite Hfs.
    + intros _. by apply existsb_false_Forall.
Qed.

Lemma mapM_processFile host config files w :
  exists results w',
    mapM (processFile host config) files w = (Returns results, w') /\
    FilesRun host config files w results w'.
Proof.
  revert w. induction files as [|filePath files IH]; intros w.
  - eexists _, _. split; [reflexivity|constructor].
  - destruct (processFile_outcome host config filePath w)
      as (result & w1 & Hrun & Houtcome).
    destruct (IH w1) as (results & w2 & Hrest & Hruns).
    exists (result :: results), w2. split; [|by econstructor].
    rewrite mapM_cons. rewrite (bind_Returns _ _ _ _ _ Hrun).
    by rewrite (bind_Returns _ _ _ _ _ Hrest).
Qed.

Lemma FilesRun_app host config files1 files2 w results1 w1 results2 w2 :
  FilesRun host config files1 w results1 w1 ->
  FilesRun host config files2 w1 results2 w2 ->
  FilesRun host config (files1 ++ files2) w (results1 ++ results2) w2.
Proof.
  induction 1 as [|filePath files w result w1 results w1' Houtcome _ IH];
    intros Hrest; [done|].
  simpl. econstructor; [done|]. by apply IH.
Qed.

Lemma processChunks_run host config chunks results w :
  exists results' w',
    processChunks host config chunks results w = (Returns (results ++ results'), w') /\
    FilesRun host config (concat chunks) w results' w'.
Proof.
  revert results w. induction chunks as [|chunk chunks IH]; intros results w.
  - exists [], w. rewrite app_nil_r. split; [reflexivity|constructor].
  - destruct (mapM_processFile host config chunk w)
      as (chunkResults & w1 & Hchunk & Hrun1).
    destruct (IH (results ++ chunkResults) w1) as (rest & w2 & Hrest & Hrun2).
    exists (chunkResults ++ rest), w2. split.
    + cbn [processChunks]. rewrite (bind_Returns _ _ _ _ _ Hchunk).
      by rewrite Hrest, <- app_assoc.
    + cbn [concat]. by eapply FilesRun_app.
Qed.

Lemma FilesRun_filePaths host config files w results w' :
  FilesRun host config files w results w' ->
  map ProcessingResult.filePath results = files.
Proof.
  induction 1 as [|filePath files w result w1 results w2 Houtcome _ IH]; [done|].
  apply FileOutcome_effects in Houtcome as (Hpath & _). simpl. congruence.
Qed.

(** ** The chunk-building loop *)

Lemma Qlt_bool_iff a b : Qlt_bool a b = true <-> (a < b)%Q.
Proof.
  unfold Qlt_bool. rewrite negb_true_iff. split.
  - intros Hle. apply Qnot_le_lt. intros H. apply Qle_bool_iff in H. congruence.
  - intros Hlt. destruct (Qle_bool b a) eqn:H; [|done].
    apply Qle_bool_iff in H. by apply Qlt_not_le in Hlt.
Qed.

Lemma truncate_nonneg q : (0 <= q)%Q -> truncate q = Qfloor q.
Proof. intros Hq. unfold truncate. apply Qle_bool_iff in Hq. by rewrite Hq. Qed.

Lemma Qfloor_nonneg q : (0 <= q)%Q -> (0 <= Qfloor q)%Z.
Proof. intros Hq. apply (Qfloor_resp_le 0 q) in Hq. exact Hq. Qed.

(** A step of one or more moves the index to a later file. *)
Lemma Qfloor_step q c : (1 <= c)%Q -> (Qfloor q + 1 <= Qfloor (q + c))%Z.
Proof.
  intros Hc.
  assert (H : (inject_Z (Qfloor q + 1) <= q + c)%Q).
  { rewrite inject_Z_plus. pose proof (Qfloor_le q).
    change (inject_Z 1) with 1%Q. lra. }
  apply Qfloor_resp_le in H. by rewrite Qfloor_Z in H.
Qed.

Lemma Qfloor_lt_nat q (n : nat) :
  (q < inject_Z (Z.of_nat n))%Q <-> (Qfloor q < Z.of_nat n)%Z.
Proof.
  split.
  - intros Hlt. apply Z.lt_nge. intros Hge.
    assert (H : (inject_Z (Z.of_nat n) <= q)%Q).
    { eapply Qle_trans; [|apply Qfloor_le]. by rewrite <- Zle_Qle. }
    lra.
  - intros Hlt. apply Qnot_le_lt. intros Hge.
    apply Qfloor_resp_le in Hge. rewrite Qfloor_Z in Hge. lia.
Qed.

(** The slice the loop pushes at a finite index that is not negative. *)
Lemma slice_step {A} (l : list A) (q c : Q) :
  (0 <= q)%Q -> (0 <= q + c)%Q ->
  slice l (Finite q) (Finite (q + c))
  = take (Z.to_nat (Qfloor (q + c)) - Z.to_nat (Qfloor q))
      (drop (Z.to_nat (Qfloor q)) l).
Proof.
  intros Hq Hqc. unfold slice, toIntegerOrInfinity, relativeIndex.
  rewrite !truncate_nonneg by done.
  pose proof (Qfloor_nonneg _ Hq). pose proof (Qfloor_nonneg _ Hqc).
  destruct (Z.ltb_spec (Qfloor q) 0); [lia|].
  destruct (Z.ltb_spec (Qfloor (q + c)) 0); [lia|].
  destruct (Z.le_ge_cases (Z.of_nat (length l)) (Qfloor q)) as [Hout|Hin].
  - rewrite (Z.min_r (Qfloor q)) by lia. rewrite !drop_ge by lia.
    by rewrite !take_nil.
  - rewrite (Z.min_l (Qfloor q)) by lia.
    destruct (Z.le_ge_cases (Qfloor (q + c)) (Z.of_nat (length l))).
    + by rewrite Z.min_l by lia.
    + rewrite Z.min_r by lia. rewrite !take_ge; [done|rewrite length_drop; lia..].
Qed.

(** With a finite step of one or more the loop ends within
    [length files + 1] tests of its condition; the chunks it has pushed are
    the files from the index on, cut into pieces that are not empty, and of
    at most [concurrent] files when the step and the index are integers. *)
Lemma chunkLoop_forward fuel files c q chunks :
  (1 <= c)%Q -> (0 <= q)%Q ->
  (Z.of_nat (length files) - Qfloor q < Z.of_nat fuel)%Z -> (0 < fuel)%nat ->
  exists pushed,
    chunkLoop fuel files (Finite c) (Finite q) chunks = Returns (chunks ++ pushed) /\
    concat pushed = drop (Z.to_nat (Qfloor q)) files /\
    Forall (fun chunk => (1 <= length chunk)%nat) pushed /\
    (forall z k : Z, (c == inject_Z z)%Q -> (q == inject_Z k)%Q ->
       Forall (fun chunk => (Z.of_nat (length chunk) <= z)%Z) pushed).
Proof.
  intros Hc. revert q chunks.
  induction fuel as [|fuel IH]; intros q chunks Hq Hfuel Hpos; [lia|].
  cbn [chunkLoop]. unfold numberLt, numberOfNat.
  pose proof (Qfloor_nonneg _ Hq) as Hfloor.
  destruct (Qlt_bool q (inject_Z (Z.of_nat (length files)))) eqn:Hlt.
  - apply Qlt_bool_iff, Qfloor_lt_nat in Hlt.
    pose proof (Qfloor_step q c Hc) as Hstep.
    assert (Hqc : (0 <= q + c)%Q) by lra.
    cbn [numberAdd].
    destruct (IH (q + c)%Q (chunks ++ [slice files (Finite q) (Finite (q + c))]))
      as (pushed & Hrun & Hconcat & Hsizes & Hbound); [done|lia|lia|].
    exists (slice files (Finite q) (Finite (q + c)) :: pushed).
    rewrite Hrun, <- app_assoc. split; [done|].
    rewrite slice_step by done.
    set (s := Z.to_nat (Qfloor q)) in *.
    set (e := Z.to_nat (Qfloor (q + c))) in *.
    assert (Hse : (s < e)%nat) by (subst s e; lia).
    assert (Hs : (s < length files)%nat) by (subst s; lia).
    split; [|split].
    + cbn [concat]. rewrite Hconcat.
      replace e with (s + (e - s))%nat at 2 by lia.
      rewrite <- drop_drop. apply take_drop.
    + constructor; [|done]. rewrite length_take, length_drop. lia.
    + intros z k Hz Hk. constructor.
      * rewrite length_take, length_drop.
        assert (He : Qfloor (q + c) = (k + z)%Z).
        { rewrite <- (Qfloor_Z (k + z)). apply Qfloor_comp.
          rewrite inject_Z_plus, Hz, Hk. reflexivity. }
        assert (Hk' : Qfloor q = k).
        { rewrite <- (Qfloor_Z k). by apply Qfloor_comp. }
        subst s e. lia.
      * apply (Hbound z (k + z)%Z Hz). rewrite inject_Z_plus, Hz, Hk. reflexivity.
  - exists []. rewrite app_nil_r.
    assert (Hge : ~ (Qfloor q < Z.of_nat (length files))%Z).
    { intros H. apply Qfloor_lt_nat, Qlt_bool_iff in H. congruence. }
    rewrite drop_ge by lia. by repeat split.
Qed.

Lemma chunkLoop_mono fuel fuel' files c i chunks result :
  chunkLoop fuel files c i chunks = Returns result -> (fuel <= fuel')%nat ->
  chunkLoop fuel' files c i chunks = Returns result.
Proof.
  revert fuel' i chunks. induction fuel as [|fuel IH]; intros fuel' i chunks;
    [done|].
  intros Hrun Hle. destruct fuel' as [|fuel']; [lia|].
  cbn [chunkLoop] in *. destruct (numberLt i (numberOfNat (length files))); [|done].
  apply IH; [done|lia].
Qed.

(** Numbers that are zero or less, minus infinity among them. *)
Lemma numberAdd_nonPositive x y :
  numberLe x (Finite 0) = true -> numberLe y (Finite 0) = true ->
  numberLe (numberAdd x y) (Finite 0) = true.
Proof.
  destruct x as [| | |a], y as [| | |b]; try done.
  cbn. rewrite !Qle_bool_iff. lra.
Qed.

Lemma nonPositive_lt x n :
  numberLe x (Finite 0) = true -> numberLt x (numberOfNat (S n)) = true.
Proof.
  destruct x as [| | |a]; try done.
  cbn [numberLe numberLt numberOfNat]. rewrite Qle_bool_iff, Qlt_bool_iff.
  intros Ha. eapply Qle_lt_trans; [exact Ha|].
  change 0%Q with (inject_Z 0). rewrite <- Zlt_Qlt. lia.
Qed.

Lemma slice_all {A} (l : list A) : slice l (Finite 0) PosInfinity = l.
Proof.
  unfold slice. cbn [toIntegerOrInfinity relativeIndex].
  change (truncate 0) with 0%Z. cbn [Z.ltb Z.compare].
  rewrite Z.min_l by lia. cbn [Z.to_nat drop]. rewrite Nat.sub_0_r.
  by rewrite take_ge.
Qed.

(** From a step of one or more, an infinite one included, the loop ends
    with the files cut in order. *)
Lemma chunkLoop_from_one fuel files c :
  numberLe (Finite 1) c = true -> (length files < fuel)%nat ->
  exists chunks,
    chunkLoop fuel files c (Finite 0) [] = Returns chunks /\
    concat chunks = files /\
    Forall (fun chunk => (1 <= length chunk)%nat) chunks /\
    (forall z, isInteger c z ->
       Forall (fun chunk => (Z.of_nat (length chunk) <= z)%Z) chunks).
Proof.
  intros Hc Hfuel. destruct c as [| | |c]; try discriminate Hc.
  - destruct fuel as [|[|fuel]], files as [|file files]; simpl in Hfuel; try lia.
    + exists []. repeat split; try done; intros z (q & [=] & _).
    + exists []. repeat split; try done; intros z (q & [=] & _).
    + exists [file :: files]. split; [|split; [|split]].
      * cbn [chunkLoop numberAdd length]. rewrite nonPositive_lt by done.
        cbn [numberLt app]. by rewrite slice_all.
      * cbn [concat]. by rewrite app_nil_r.
      * constructor; [simpl; lia|constructor].
      * intros z (q & [=] & _).
  - apply Qle_bool_iff in Hc.
    destruct (chunkLoop_forward fuel files c 0 [] Hc)
      as (chunks & Hrun & Hconcat & Hsizes & Hbound);
      [lra|change (Qfloor 0) with 0%Z; lia|lia|].
    exists chunks. split; [exact Hrun|]. split; [exact Hconcat|].
    split; [exact Hsizes|].
    intros z (q & [= <-] & Hz). by apply (Hbound z 0%Z).
Qed.

(** With a step of zero or less the index never reaches the length. *)
Lemma chunkLoop_stuck fuel files c i chunks :
  numberLe c (Finite 0) = true -> numberLe i (Finite 0) = true -> files <> [] ->
  chunkLoop fuel files c i chunks = Diverges.
Proof.
  intros Hc Hi Hfiles. revert i chunks Hi.
  induction fuel as [|fuel IH]; intros i chunks Hi; [done|].
  cbn [chunkLoop]. destruct files as [|file files]; [done|].
  cbn [length]. rewrite nonPositive_lt by done.
  apply IH. by apply numberAdd_nonPositive.
Qed.

(** Steps the specification's wording fails for: one half ends the loop,
    with empty chunks on the way; one and a half gives a chunk of two files;
    NaN ends it after one empty chunk. *)
Example chunkLoop_half :
  chunkLoop 7 threeFiles (Finite (1 # 2)) (Finite 0) []
  = Returns [[]; [js "a.md"]; []; [js "b.md"]; []; [js "c.md"]].
Proof. vm_compute. reflexivity. Qed.

Example chunkLoop_one_and_a_half :
  chunkLoop 4 threeFiles (Finite (3 # 2)) (Finite 0) []
  = Returns [[js "a.md"]; [js "b.md"; js "c.md"]].
Proof. vm_compute. reflexivity. Qed.

Lemma chunking_counterexample :
  ~ chunkingAsSpecified threeFiles (Finite (1 # 2)) /\
  ~ chunkingAsSpecified threeFiles (Finite (3 # 2)) /\
  ~ chunkingAsSpecified threeFiles NaN.
Proof.
  split; [|split].
  - intros [Hiff _].
    assert (Hends : exists fuel chunks,
              chunkLoop fuel threeFiles (Finite (1 # 2)) (Finite 0) [] = Returns chunks)
      by (eexists 7%nat, _; exact chunkLoop_half).
    apply Hiff in Hends. discriminate Hends.
  - intros [_ Hsizes].
    destruct (Hsizes eq_refl 4%nat _ chunkLoop_one_and_a_half) as [_ Hall].
    apply Forall_cons in Hall as [_ Hall]. apply Forall_cons in Hall as [Htwo _].
    discriminate Htwo.
  - intros [Hiff _].
    assert (Hends : exists fuel chunks,
              chunkLoop fuel threeFiles NaN (Finite 0) [] = Returns chunks)
      by (by exists 2%nat, [[]]).
    apply Hiff in Hends. discriminate Hends.
Qed.

(** C10 — The chunk-building loop.  For every non-empty list of files:
    with [config.concurrent >= 1] (plus infinity included) the loop of
    [processDirectory] ends, the chunks are the file list cut, in order,
    into pieces none of which is empty, of at most [concurrent] files when
    [concurrent] is an integer, and [processChunks] returns one result per
    file, in the order of the files; with [config.concurrent <= 0] (minus
    infinity included) the loop is still running whatever the fuel; with
    NaN it ends after one empty chunk, no file being processed. *)
Theorem chunking_by_step (files : list jsstring) (concurrent : JsNumber) :
  files <> [] ->
  (numberLe (Finite 1) concurrent = true ->
   exists chunks,
     (forall fuel, (length files < fuel)%nat ->
                   chunkLoop fuel files concurrent (Finite 0) [] = Returns chunks) /\
     concat chunks = files /\
     Forall (fun chunk => (1 <= length chunk)%nat) chunks /\
     (forall z, isInteger concurrent z ->
        Forall (fun chunk => (Z.of_nat (length chunk) <= z)%Z) chunks) /\
     forall host config w,
     exists results w',
       processChunks host config chunks [] w = (Returns results, w') /\
       map ProcessingResult.filePath results = files) /\
  (numberLe concurrent (Finite 0) = true ->
   forall fuel, chunkLoop fuel files concurrent (Finite 0) [] = Diverges) /\
  (concurrent = NaN ->
   forall fuel, chunkLoop (S (S fuel)) files concurrent (Finite 0) [] = Returns [[]] /\
   forall host config w,
     processChunks host config [[]] [] w = (Returns [], w)).
Proof.
  intros Hfiles. split; [|split].
  - intros Hc.
    destruct (chunkLoop_from_one (S (length files)) files concurrent Hc)
      as (chunks & Hrun & Hconcat & Hsizes & Hbound); [lia|].
    exists chunks. split; [|split; [done|split; [done|split; [done|]]]].
    + intros fuel Hfuel. eapply chunkLoop_mono; [exact Hrun|lia].
    + intros host config w.
      destruct (processChunks_run host config chunks [] w)
        as (results & w' & Hchunks & Hfilesrun).
      rewrite Hconcat in Hfilesrun. exists results, w'.
      split; [done|]. by eapply FilesRun_filePaths.
  - intros Hc fuel. by apply chunkLoop_stuck.
  - intros -> fuel. split; [|done].
    destruct files as [|file files]; [done|]. reflexivity.
Qed.

Lemma chunking_by_step_witness :
  exists chunks,
    (forall fuel, (3 < fuel)%nat ->
                  chunkLoop fuel threeFiles (Finite 2) (Finite 0) [] = Returns chunks) /\
    concat chunks = threeFiles /\
    Forall (fun chunk => (Z.of_nat (length chunk) <= 2)%Z) chunks.
Proof.
  destruct (chunking_by_step threeFiles (Finite 2)) as [Hforward _];
    [discriminate|].
  destruct (Hforward eq_refl) as (chunks & Hrun & Hconcat & _ & Hbound & _).
  exists chunks. split; [exact Hrun|]. split; [exact Hconcat|].
  apply Hbound. exists 2%Q. split; reflexivity.
Defined.

Example chunkLoop_zero_step :
  chunkLoop 1000 threeFiles (Finite 0) (Finite 0) [] = Diverges.
Proof. by apply chunkLoop_stuck. Qed.

(** ** [processDirectory] *)

(** What a completed call of [processDirectory] went through. *)
Lemma processDirectory_Returns host fuel config w stats w' :
  processDirectory host fuel config w = (Returns stats, w') ->
  exists files w1 chunks results,
    getMarkdownFiles host fuel (inputDir config) w = (Returns files, w1) /\
    chunkLoop fuel files (concurrent config) (Finite 0) [] = Returns chunks /\
    processChunks host config chunks [] w1 = (Returns results, w') /\
    FilesRun host config (concat chunks) w1 results w' /\
    stats = computeStats results.
Proof.
  unfold processDirectory. intros Hrun.
  apply bind_Returns_inv in Hrun as (files & w1 & Hfiles & Hrun).
  apply bind_Returns_inv in Hrun as (chunks & w2 & Hchunks & Hrun).
  apply bind_Returns_inv in Hrun as (results & w3 & Hresults & Hrun).
  injection Hrun as <- <-.
  destruct (chunkLoop fuel files (concurrent config) (Finite 0) [])
    as [chunks'| |] eqn:Hloop;
    try discriminate.
  injection Hchunks as -> <-.
  destruct (processChunks_run host config chunks [] w1)
    as (results' & w'' & Hchunks' & Hfilesrun).
  rewrite Hresults in Hchunks'. injection Hchunks' as -> ->.
  by exists files, w1, chunks, results'.
Qed.

(** C9 — [diagramsSkipped] is zero.  For every run in which
    [processDirectory] completes and returns statistics, whatever the
    configuration (its [dbPath] included) and whatever the cache tables
    hold, the [diagramsSkipped] field is 0. *)
Theorem diagramsSkipped_is_zero (host : Host) (fuel : nat)
    (config : ProcessorConfig) (w w' : World) (stats : ProcessingStats) :
  processDirectory host fuel config w = (Returns stats, w') ->
  diagramsSkipped stats = 0%nat.
Proof.
  intros Hrun.
  apply processDirectory_Returns in Hrun as (_ & _ & _ & results & _ & _ & _ & _ & ->).
  reflexivity.
Qed.

(** The same through [processMermaidDiagrams], which opens the cache
    database first. *)
Lemma processMermaidDiagrams_diagramsSkipped host fuel userConfig w w' stats :
  processMermaidDiagrams host fuel userConfig w = (Returns (Right stats), w') ->
  diagramsSkipped stats = 0%nat.
Proof.
  unfold processMermaidDiagrams, tryCatch.
  set (config := applyEnvironmentConfig (nodeEnv w) (createConfig userConfig)).
  set (body := @mbind Async _ _ _ _ _).
  destruct (body w) as [[[message|stats']| |] w1] eqn:Hbody; try discriminate.
  intros [= -> ->]. subst body.
  apply bind_Returns_inv in Hbody as ([message|] & w0 & _ & Hrest);
    [discriminate|].
  apply bind_Returns_inv in Hrest as (stats' & w2 & Hdir & [= -> ->]).
  apply processDirectory_Returns in Hdir
    as (_ & _ & _ & results & _ & _ & _ & _ & ->).
  reflexivity.
Qed.

Example processDirectory_cachedWorld :
  (processDirectory draftHost 8 cachedConfig cachedWorld).1
  = Returns {| filesProcessed := 2; diagramsGenerated := 2;
               diagramsSkipped := 0; errors := 0 |}.
Proof. vm_compute. reflexivity. Qed.

Lemma diagramsSkipped_is_zero_witness :
  exists stats w',
    processDirectory draftHost 8 cachedConfig cachedWorld = (Returns stats, w') /\
    diagramsSkipped stats = 0%nat.
Proof.
  destruct (processDirectory draftHost 8 cachedConfig cachedWorld)
    as [[stats| |] w'] eqn:Hrun.
  - exists stats, w'. split; [reflexivity|].
    exact (diagramsSkipped_is_zero draftHost 8 cachedConfig cachedWorld w' stats Hrun).
  - apply (f_equal fst) in Hrun. rewrite processDirectory_cachedWorld in Hrun.
    discriminate Hrun.
  - apply (f_equal fst) in Hrun. rewrite processDirectory_cachedWorld in Hrun.
    discriminate Hrun.
Defined.

(** ** The statistics *)

Lemma failedCalls_none calls :
  Forall (fun call => callFailed call = false) calls -> failedCalls calls = 0%nat.
Proof.
  unfold failedCalls. induction 1 as [|call calls Hcall _ IH]; [done|].
  simpl. by rewrite Hcall.
Qed.

Lemma failuresInsideSuccesses_cons result calls trace :
  failuresInsideSuccesses ((result, calls) :: trace)
  = ((if ProcessingResult.success result then failedCalls calls else 0)
     + failuresInsideSuccesses trace)%nat.
Proof. reflexivity. Qed.

Lemma runTrace_spec host config files w :
  exists results w',
    mapM (processFile host config) files w = (Returns results, w') /\
    map fst (runTrace host config files w) = results /\
    failuresInsideSuccesses (runTrace host config files w) = 0%nat.
Proof.
  revert w. induction files as [|filePath files IH]; intros w.
  - by exists [], w.
  - destruct (processFile_outcome host config filePath w)
      as (result & w1 & Hrun & Houtcome).
    destruct (IH w1) as (results & w2 & Hrest & Hresults & Hnone).
    exists (result :: results), w2.
    cbn [runTrace]. rewrite Hrun. split; [|split].
    + rewrite mapM_cons, (bind_Returns _ _ _ _ _ Hrun).
      by rewrite (bind_Returns _ _ _ _ _ Hrest).
    + cbn [map fst]. by rewrite Hresults.
    + rewrite failuresInsideSuccesses_cons, Hnone, Nat.add_0_r.
      apply FileOutcome_effects in Houtcome as (_ & _ & _ & Hlog & _ & Hfine).
      destruct (ProcessingResult.success result); [|done].
      unfold newRenderCalls. rewrite Hlog, drop_app_length.
      by apply failedCalls_none, Hfine.
Qed.

Lemma fold_left_sum {A} (g : A -> nat) (l : list A) (start : nat) :
  fold_left (fun sum x => (sum + g x)%nat) l start
  = (start + list_sum (map g l))%nat.
Proof.
  revert start. induction l as [|x l IH]; intros start; simpl; [lia|].
  rewrite IH. lia.
Qed.

Lemma list_sum_filter (results : list ProcessingResult.t) :
  list_sum
    (map (fun result =>
            if ProcessingResult.success result
            then ProcessingResult.diagramsProcessed result else 0%nat) results)
  = list_sum
      (map ProcessingResult.diagramsProcessed
         (List.filter ProcessingResult.success results)).
Proof.
  induction results as [|result results IH]; [done|].
  simpl. destruct (ProcessingResult.success result); simpl; lia.
Qed.

(** C5 — Stats aggregation formula.  For every list of results the
    statistics computed from it have [filesProcessed] the number of
    results, [diagramsGenerated] the sum of [diagramsProcessed] over the
    successful results and [errors] the number of failed results; and when
    the results are those of a run over a list of files, [errors] is the
    number of failed results plus the number of render failures recorded
    while the files with a successful result were processed. *)
Theorem stats_aggregation (results : list ProcessingResult.t) :
  filesProcessed (computeStats results) = length results /\
  diagramsGenerated (computeStats results)
  = list_sum (map ProcessingResult.diagramsProcessed
                (List.filter ProcessingResult.success results)) /\
  errors (computeStats results)
  = length (List.filter (fun result => negb (ProcessingResult.success result))
              results) /\
  forall host config files w w',
    mapM (processFile host config) files w = (Returns results, w') ->
    map fst (runTrace host config files w) = results /\
    errors (computeStats results)
    = (length (List.filter (fun result => negb (ProcessingResult.success result))
                 results)
       + failuresInsideSuccesses (runTrace host config files w))%nat.
Proof.
  split; [reflexivity|]. split.
  { cbn [computeStats diagramsGenerated].
    by rewrite fold_left_sum, list_sum_filter. }
  split; [reflexivity|].
  intros host config files w w' Hrun.
  destruct (runTrace_spec host config files w)
    as (results' & w'' & Hrun' & Hresults & Hnone).
  rewrite Hrun in Hrun'. injection Hrun' as <- <-.
  split; [done|]. rewrite Hnone. cbn [computeStats errors]. lia.
Qed.

Lemma stats_aggregation_witness :
  exists results w',
    mapM (processFile pickyHost defaultConfig) [js "docs/three.md"] threeBlocksWorld
    = (Returns results, w') /\
    errors (computeStats results)
    = (length (List.filter (fun result => negb (ProcessingResult.success result))
                 results)
       + failuresInsideSuccesses
           (runTrace pickyHost defaultConfig [js "docs/three.md"] threeBlocksWorld))%nat.
Proof.
  destruct (mapM_processFile pickyHost defaultConfig [js "docs/three.md"]
              threeBlocksWorld) as (results & w' & Hrun & _).
  exists results, w'. split; [exact Hrun|].
  destruct (stats_aggregation results) as (_ & _ & _ & Hruns).
  exact (proj2 (Hruns pickyHost defaultConfig [js "docs/three.md"]
                  threeBlocksWorld w' Hrun)).
Defined.

(** ** Rendering and the cache *)

(** The directory walk only reads. *)
Lemma readdir_world path w : (readdir path w).2 = w.
Proof. unfold readdir. by destruct (fs w !! path) as [[]|]. Qed.

Lemma statIsDirectory_world path w : (statIsDirectory path w).2 = w.
Proof. unfold statIsDirectory. by destruct (fs w !! path) as [[]|]. Qed.

Lemma forEntries_world host recurse currentDir entries files w :
  (forall dir files w, (recurse dir files w).2 = w) ->
  (forEntries host recurse currentDir entries files w).2 = w.
Proof.
  intros Hrecurse. revert files.
  induction entries as [|entry entries IH]; intros files; [done|].
  cbn [forEntries]. unfold mbind at 1, Async_bind at 1.
  pose proof (statIsDirectory_world (join host currentDir entry) w) as Hstat.
  destruct (statIsDirectory _ w) as [[isDirectory| |] w1]; simpl in Hstat;
    subst w1; [|done..].
  unfold mbind at 1, Async_bind at 1.
  destruct isDirectory.
  - pose proof (Hrecurse (join host currentDir entry) files w) as Hsub.
    destruct (recurse _ files w) as [[files'| |] w1]; simpl in Hsub; subst w1;
      [apply IH|done..].
  - destruct (isMarkdownFile host entry); apply IH.
Qed.

Lemma walkDirectory_world host fuel currentDir files w :
  (walkDirectory host fuel currentDir files w).2 = w.
Proof.
  revert currentDir files w.
  induction fuel as [|fuel IH]; intros currentDir files w; [done|].
  cbn [walkDirectory]. unfold mbind at 1, Async_bind at 1.
  pose proof (readdir_world currentDir w) as Hread.
  destruct (readdir currentDir w) as [[entries| |] w1]; simpl in Hread; subst w1;
    [|done..].
  by apply forEntries_world.
Qed.

(** Scenario 4 of the specification, with a directory to descend into
    and a file that is not a document. *)
Example processDirectory_mixedWorld :
  (processDirectory draftHost 8
     (createConfig (overrideDirs "docs" "out" "/img")) mixedWorld).1
  = Returns {| filesProcessed := 3; diagramsGenerated := 2;
               diagramsSkipped := 0; errors := 0 |}.
Proof. vm_compute. reflexivity. Qed.

(** With a database path and the path of the shared diagram already in the
    cache table, the gateway is called for both documents all the same. *)
Example checkCached_cachedWorld :
  (Database.checkCached (Some (js "cache.db")) (js "f202f94e") cachedWorld).1
  = Returns (Some (js "out/old-f202f94e.svg")).
Proof. vm_compute. reflexivity. Qed.

Example renders_in_cachedWorld :
  rendersOf (js "graph TD" ++ [LF] ++ js "A-->B") ThemeDark
    (newRenderCalls cachedWorld
       (processMermaidDiagrams draftHost 8 cachedOverrides cachedWorld).2)
  = 2%nat.
Proof. vm_compute. reflexivity. Qed.

(** The cache tables are carried along untouched. *)
Lemma logRenders_setDatabases w tables calls :
  logRenders (setDatabases w tables) calls = setDatabases (logRenders w calls) tables.
Proof.
  revert w. induction calls as [|call calls IH]; intros w; [done|].
  change (logRenders ?v (call :: calls)) with (logRenders (logRender v call) calls).
  by rewrite <- IH.
Qed.

(** [processFile] does what it does whatever the cache tables hold. *)
Lemma processFile_setDatabases host config filePath w tables :
  processFile host config filePath (setDatabases w tables)
  = ((processFile host config filePath w).1,
     setDatabases (processFile host config filePath w).2 tables).
Proof.
  unfold processFile, tryCatch. unfold mbind, Async_bind.
  unfold readFile. cbn [fs setDatabases].
  destruct (fs w !! filePath) as [[content [] writable|entries]|] eqn:Hfile;
    [|done..].
  destruct (length (extractMermaidDiagrams content) =? 0)%nat; [done|].
  rewrite !mapM_processDiagram, logRenders_setDatabases.
  destruct (0 <? length _)%nat; [done|].
  destruct (replaceMermaidBlocks content _ _ config) as [updated|error|]; [|done..].
  unfold writeFile. cbn [fs setDatabases].
  destruct (logRenders_fields w
              (map (renderCallOf host config) (extractMermaidDiagrams content)))
    as (-> & _).
  rewrite Hfile. by destruct writable.
Qed.

Example processMermaidDiagrams_cachedWorld :
  (processMermaidDiagrams draftHost 8 cachedOverrides cachedWorld).1
  = Returns (Right {| filesProcessed := 2; diagramsGenerated := 2;
                      diagramsSkipped := 0; errors := 0 |}).
Proof. vm_compute. reflexivity. Qed.

Example databases_after_cachedWorld :
  databases (processMermaidDiagrams draftHost 8 cachedOverrides cachedWorld).2
  = databases cachedWorld.
Proof. vm_compute. reflexivity. Qed.

(** C1 — The cache is not consulted.  Whatever the cache tables hold,
    [processFile] returns the same result and makes the same calls of the
    render gateway.  In the run over two documents that have the same
    diagram, with a cache database configured whose table already has a row
    for the fingerprint of that diagram, the gateway is called twice for that
    source and theme, where the specification allows one call, the second
    occurrence to be served from the cache; no skipped diagram is counted and
    the table is left as it was. *)
Theorem cached_diagram_is_rendered_again :
  (forall host config filePath w tables,
     (processFile host config filePath (setDatabases w tables)).1
     = (processFile host config filePath w).1 /\
     renderLog (processFile host config filePath (setDatabases w tables)).2
     = renderLog (processFile host config filePath w).2) /\
  truthyPath (dbPath (effectiveConfig cachedWorld cachedOverrides))
  = Some (js "cache.db") /\
  map DiagramInfo.id (extractMermaidDiagrams scenarioDocument) = [js "f202f94e"] /\
  (Database.checkCached (Some (js "cache.db")) (js "f202f94e") cachedWorld).1
  = Returns (Some (js "out/old-f202f94e.svg")) /\
  (processMermaidDiagrams draftHost 8 cachedOverrides cachedWorld).1
  = Returns (Right {| filesProcessed := 2; diagramsGenerated := 2;
                      diagramsSkipped := 0; errors := 0 |}) /\
  rendersOf (js "graph TD" ++ [LF] ++ js "A-->B") ThemeDark
    (newRenderCalls cachedWorld
       (processMermaidDiagrams draftHost 8 cachedOverrides cachedWorld).2)
  = 2%nat /\
  databases (processMermaidDiagrams draftHost 8 cachedOverrides cachedWorld).2
  = databases cachedWorld.
Proof.
  split.
  { intros host config filePath w tables.
    rewrite processFile_setDatabases. by split. }
  split; [reflexivity|].
  split; [by rewrite extract_scenarioDocument|].
  split; [exact checkCached_cachedWorld|].
  split; [exact processMermaidDiagrams_cachedWorld|].
  split; [exact renders_in_cachedWorld|exact databases_after_cachedWorld].
Qed.

(** * Further properties *)

(** ** Fences and blocks *)

Lemma fence_lengths : length fenceOpen = 11%nat /\ length fenceClose = 4%nat.
Proof. split; vm_compute; reflexivity. Qed.

Lemma lazyGroup_unfold s :
  lazyGroup s =
  if startsWith fenceClose s then Some []
  else match s with
       | [] => None
       | c :: s' => cons c <$> lazyGroup s'
       end.
Proof.
  destruct s as [|c s]; [|apply lazyGroup_cons].
  rewrite lazyGroup_nil. destruct (startsWith fenceClose []) eqn:Hclose; [|done].
  apply startsWith_app in Hclose as [rest Hrest].
  apply (f_equal length) in Hrest. rewrite length_app in Hrest.
  destruct fence_lengths as [_ Hlen]. rewrite Hlen in Hrest. simpl in Hrest. lia.
Qed.

Lemma lazyGroup_complete body rest :
  is_Some (lazyGroup (body ++ fenceClose ++ rest)).
Proof.
  induction body as [|c body IH].
  - rewrite lazyGroup_unfold.
    assert (startsWith fenceClose ([] ++ fenceClose ++ rest) = true) as ->
      by (apply startsWith_app; by exists rest).
    by eexists.
  - change ((c :: body) ++ fenceClose ++ rest)
      with (c :: (body ++ fenceClose ++ rest)).
    rewrite lazyGroup_cons. destruct (startsWith fenceClose _); [by eexists|].
    destruct IH as [g ->]. by eexists.
Qed.

Lemma matchHere_complete body rest :
  is_Some (matchHere (fenceOpen ++ body ++ fenceClose ++ rest)).
Proof.
  unfold matchHere.
  assert (startsWith fenceOpen (fenceOpen ++ body ++ fenceClose ++ rest) = true)
    as -> by (apply startsWith_app; by eexists).
  rewrite drop_app_length. apply lazyGroup_complete.
Qed.

Lemma scanFrom_unfold i s :
  scanFrom i s =
  match matchHere s with
  | Some group =>
      Some {| matchIndex := i;
              match0 := fenceOpen ++ group ++ fenceClose;
              match1 := group |}
  | None => match s with [] => None | _ :: s' => scanFrom (S i) s' end
  end.
Proof.
  destruct s as [|c s]; [|apply scanFrom_cons].
  rewrite scanFrom_nil. destruct (matchHere []) as [g|] eqn:Hg; [|done].
  apply matchHere_Some in Hg as [rest Hrest].
  apply (f_equal length) in Hrest. rewrite !length_app in Hrest.
  destruct fence_lengths as [Hlen _]. rewrite Hlen in Hrest. simpl in Hrest. lia.
Qed.

Lemma scanFrom_complete i before s :
  is_Some (matchHere s) -> is_Some (scanFrom i (before ++ s)).
Proof.
  intros [g Hg]. revert i. induction before as [|c before IH]; intros i.
  - simpl. rewrite scanFrom_unfold, Hg. by eexists.
  - change ((c :: before) ++ s) with (c :: (before ++ s)).
    rewrite scanFrom_cons.
    destruct (matchHere (c :: before ++ s)); [by eexists|apply IH].
Qed.

Lemma exec_newRegExp content :
  exec newRegExp content =
  match scanFrom 0 content with
  | Some m => (Some m, {| lastIndex := (matchIndex m + length (match0 m))%nat |})
  | None => (None, {| lastIndex := 0 |})
  end.
Proof. unfold exec, newRegExp. cbn [lastIndex]. by rewrite drop_0. Qed.

Lemma execAll_scanFrom content :
  match scanFrom 0 content with
  | Some m => exists rest, execAll content = m :: rest
  | None => execAll content = []
  end.
Proof.
  assert (Hall := execLoop_execAll (S (length content)) content
                    (Nat.lt_succ_diag_r _)).
  cbn [execLoop] in Hall. rewrite exec_newRegExp in Hall.
  destruct (scanFrom 0 content) as [m|].
  - rewrite execLoop_acc in Hall.
    destruct (execLoop _ _ _ []) as [rest|]; [|discriminate Hall].
    exists rest. by injection Hall as <-.
  - by injection Hall as <-.
Qed.

Lemma execAll_nonempty_iff content :
  execAll content <> [] <-> hasFencedSpan content.
Proof.
  pose proof (execAll_scanFrom content) as Hfirst.
  split.
  - intros Hspans. destruct (scanFrom 0 content) as [m|] eqn:Hscan; [|done].
    apply scanFrom_Some in Hscan as [Hshape (before & after & Hcontent & _)].
    exists before, (match1 m), after.
    by rewrite Hcontent, Hshape, <- !app_assoc.
  - intros (before & body & after & ->).
    destruct (scanFrom_complete 0 before (fenceOpen ++ body ++ fenceClose ++ after)
                (matchHere_complete body after)) as [m Hm].
    rewrite Hm in Hfirst. destruct Hfirst as [rest ->]. done.
Qed.

(** X1 — Extraction finds a block exactly in the documents that have an
    opening fence line with a closing fence somewhere after it. *)
Theorem blocks_iff_fenced_span (content : jsstring) :
  extractMermaidDiagrams content <> [] <-> hasFencedSpan content.
Proof.
  rewrite <- execAll_nonempty_iff.
  pose proof (extractMermaidDiagrams_length content) as Hlen.
  split; intros Hsome Hnil; apply Hsome; apply nil_length_inv.
  - by rewrite Hlen, Hnil.
  - by rewrite <- Hlen, Hnil.
Qed.

Lemma lazyGroup_shortest s group :
  lazyGroup s = Some group ->
  forall k, (k < length group)%nat -> startsWith fenceClose (drop k s) = false.
Proof.
  revert group. induction s as [|c s IH]; intros group.
  - by rewrite lazyGroup_nil.
  - rewrite lazyGroup_cons.
    destruct (startsWith fenceClose (c :: s)) eqn:Hclose.
    + intros [= <-] k Hk. simpl in Hk. lia.
    + destruct (lazyGroup s) as [g|] eqn:Hg; [|discriminate].
      intros [= <-] k Hk. destruct k as [|k]; [done|].
      simpl in Hk. apply (IH g eq_refl). lia.
Qed.

Lemma scanFrom_lazyGroup i s m :
  scanFrom i s = Some m -> exists tail, lazyGroup tail = Some (match1 m).
Proof.
  revert i. induction s as [|c s IH]; intros i.
  - by rewrite scanFrom_nil.
  - rewrite scanFrom_cons. destruct (matchHere (c :: s)) as [g|] eqn:Hg.
    + intros [= <-]. cbn [match1]. unfold matchHere in Hg.
      destruct (startsWith fenceOpen (c :: s)); [|discriminate]. eauto.
    + apply IH.
Qed.

Lemma execLoop_Forall (P : RegExpMatch -> Prop) fuel re str ms :
  (forall re m re', exec re str = (Some m, re') -> P m) ->
  execLoop fuel re str [] = Some ms -> Forall P ms.
Proof.
  intros HP. revert re ms. induction fuel as [|fuel IH]; intros re ms; [done|].
  destruct (exec re str) as [[m|] re'] eqn:Hexec.
  - rewrite (execLoop_cons _ _ _ _ _ Hexec).
    destruct (execLoop fuel re' str []) as [rest|] eqn:Hrest; [|done].
    intros [= <-]. constructor; [by eapply HP|by eapply IH].
  - simpl. rewrite Hexec. intros [= <-]. constructor.
Qed.

Lemma execAll_Forall (P : RegExpMatch -> Prop) str :
  (forall re m re', exec re str = (Some m, re') -> P m) ->
  Forall P (execAll str).
Proof.
  intros HP. eapply execLoop_Forall; [exact HP|].
  apply (execLoop_execAll (S (length str))). lia.
Qed.

Lemma exec_scanFrom re str m re' :
  exec re str = (Some m, re') ->
  scanFrom (lastIndex re) (drop (lastIndex re) str) = Some m.
Proof.
  unfold exec. destruct (length str <? lastIndex re)%nat; [discriminate|].
  destruct (scanFrom _ _) as [m0|]; [|discriminate]. by intros [= -> _].
Qed.

(** X2 — The first closing fence ends a block: in the captured body
    followed by the closing fence, no closing fence starts before the end
    of the body.  Every match is the opening fence, the body, the closing
    fence. *)
Theorem first_closing_fence_ends_block (content : jsstring) (m : RegExpMatch) :
  In m (execAll content) ->
  match0 m = fenceOpen ++ match1 m ++ fenceClose /\
  forall k, (k < length (match1 m))%nat ->
    startsWith fenceClose (drop k (match1 m ++ fenceClose)) = false.
Proof.
  intros Hm.
  assert (Hall : Forall (fun m =>
            match0 m = fenceOpen ++ match1 m ++ fenceClose /\
            exists tail, lazyGroup tail = Some (match1 m)) (execAll content)).
  { apply execAll_Forall. intros re m0 re' Hexec. split.
    - by apply exec_Some in Hexec as [Hshape _].
    - apply exec_scanFrom in Hexec. by eapply scanFrom_lazyGroup. }
  rewrite Forall_forall in Hall. apply list_elem_of_In in Hm.
  destruct (Hall m Hm) as [Hshape [tail Htail]]. split; [done|].
  intros k Hk. pose proof (lazyGroup_shortest _ _ Htail k Hk) as Hshort.
  apply lazyGroup_Some in Htail as [rest ->].
  destruct (startsWith fenceClose (drop k (match1 m ++ fenceClose))) eqn:Hin;
    [|done].
  apply startsWith_app in Hin as [more Hmore].
  rewrite <- Hshort. symmetry. apply startsWith_app. exists (more ++ rest).
  rewrite (app_assoc (match1 m)), drop_app_le, Hmore by (rewrite length_app; lia).
  by rewrite <- !app_assoc.
Qed.

Lemma first_closing_fence_ends_block_witness :
  exists m,
    In m (execAll scenarioDocument) /\
    match0 m = fenceOpen ++ match1 m ++ fenceClose.
Proof.
  destruct (execAll scenarioDocument) as [|m ms] eqn:Hspans;
    [vm_compute in Hspans; discriminate Hspans|].
  assert (Hm : In m (execAll scenarioDocument))
    by (rewrite Hspans; left; reflexivity).
  exists m. rewrite <- Hspans. split; [exact Hm|].
  exact (proj1 (first_closing_fence_ends_block scenarioDocument m Hm)).
Defined.

(** ** The code of a block *)

(** X3 — The code of an extracted block is trimmed: it neither starts nor
    ends with a white space character or line terminator, and trimming it
    again changes nothing. *)
Theorem extracted_code_is_trimmed (content : jsstring) (i : nat)
    (d : DiagramInfo.t) :
  extractMermaidDiagrams content !! i = Some d ->
  trim (DiagramInfo.code d) = DiagramInfo.code d /\
  (forall c rest, DiagramInfo.code d = c :: rest -> isWhiteSpace c = false) /\
  (forall front c, DiagramInfo.code d = front ++ [c] -> isWhiteSpace c = false).
Proof.
  intros Hd. apply extractMermaidDiagrams_lookup in Hd as (m & _ & ->).
  cbn [newDiagram DiagramInfo.code].
  destruct (trim_ends (match1 m)) as [Hhead Hlast].
  split; [by apply trim_fixed|]. split.
  - intros c rest Hcode. by rewrite Hcode in Hhead.
  - intros front c Hcode. rewrite Hcode, rev_app_distr in Hlast. exact Hlast.
Qed.

Lemma extracted_code_is_trimmed_witness :
  exists d,
    extractMermaidDiagrams blankBlockDocument !! 0%nat = Some d /\
    trim (DiagramInfo.code d) = DiagramInfo.code d.
Proof.
  exists (DiagramInfo.mk (js "e3b0c442") [] (js "Mermaid diagram 1") 0).
  assert (Hd : extractMermaidDiagrams blankBlockDocument !! 0%nat
               = Some (DiagramInfo.mk (js "e3b0c442") [] (js "Mermaid diagram 1") 0))
    by (vm_compute; reflexivity).
  split; [exact Hd|].
  exact (proj1 (extracted_code_is_trimmed blankBlockDocument 0 _ Hd)).
Defined.

(** ** The rewrite, its exception and its edge cases *)

Lemma fold_Throws fn content ms error :
  fold_left (replaceStep fn content) ms (Throws error) = Throws error.
Proof. induction ms as [|m ms IH]; [done|]. simpl. exact IH. Qed.

Lemma weave_cons_pieceFor content pos diagrams svgPaths config i m rest :
  weave content pos (pieceFor diagrams svgPaths config i m :: rest)
  = substring content pos (matchIndex m)
      ++ (pieceFor diagrams svgPaths config i m).2
      ++ weave content (matchIndex m + length (match0 m)) rest.
Proof. reflexivity. Qed.

(** The replacement goes through when every match that has a path has a
    diagram. *)
Lemma replace_fold_paths content diagrams svgPaths config ms :
  forall k accumulated pos,
  chained content pos ms ->
  (forall j, (j < length ms)%nat -> (k + j < length svgPaths)%nat ->
             (k + j < length diagrams)%nat) ->
  finishReplace content
    (fold_left (replaceStep (replacer diagrams svgPaths config) content) ms
       (Returns (accumulated, pos, Nat.min k (length svgPaths))))
  = Returns (accumulated
               ++ weave content pos
                    (imap (fun j => pieceFor diagrams svgPaths config (k + j)) ms)).
Proof.
  induction ms as [|m ms IH]; intros k accumulated pos Hchain Hdiagrams; [done|].
  inversion Hchain as [|? ? ? Hle Htext Hend Hrest]; subst.
  cbn [fold_left imap]. rewrite weave_cons_pieceFor, Nat.add_0_r.
  assert (Hstep :
    replaceStep (replacer diagrams svgPaths config) content
      (Returns (accumulated, pos, Nat.min k (length svgPaths))) m
    = Returns (accumulated ++ substring content pos (matchIndex m)
                 ++ (pieceFor diagrams svgPaths config k m).2,
               (matchIndex m + length (match0 m))%nat,
               Nat.min (S k) (length svgPaths))).
  { unfold replaceStep, replacer, pieceFor. cbn [mbind Completion_bind snd].
    destruct (Nat.lt_ge_cases k (length svgPaths)) as [Hk|Hk].
    - rewrite Nat.min_l by lia.
      destruct (lookup_lt_is_Some_2 svgPaths k Hk) as [svgPath ->].
      destruct (lookup_lt_is_Some_2 diagrams k) as [diagram ->].
      { specialize (Hdiagrams 0%nat). simpl in Hdiagrams.
        rewrite Nat.add_0_r in Hdiagrams. apply Hdiagrams; lia. }
      cbn [mbind Completion_bind].
      destruct (Nat.leb_spec pos (matchIndex m)); [|lia].
      repeat f_equal; lia.
    - rewrite Nat.min_r by lia.
      rewrite (lookup_ge_None_2 svgPaths (length svgPaths)) by lia.
      rewrite (lookup_ge_None_2 svgPaths k) by lia.
      cbn [mbind Completion_bind].
      destruct (Nat.leb_spec pos (matchIndex m)); [|lia].
      repeat f_equal; lia. }
  rewrite Hstep, (IH (S k)); [|done|].
  - rewrite <- !app_assoc. do 5 f_equal.
    apply imap_ext. intros j x _. simpl. f_equal. lia.
  - intros j Hj Hpath. specialize (Hdiagrams (S j)). simpl in Hdiagrams.
    rewrite Nat.add_succ_r in Hdiagrams. apply Hdiagrams; lia.
Qed.

(** It throws when some match has a path and no diagram. *)
Lemma replace_fold_throws content diagrams svgPaths config ms :
  forall k accumulated pos,
  chained content pos ms ->
  (exists j, (j < length ms)%nat /\ (k + j < length svgPaths)%nat /\
             (length diagrams <= k + j)%nat) ->
  (forall i, (i < k)%nat -> (i < length svgPaths)%nat -> (i < length diagrams)%nat) ->
  finishReplace content
    (fold_left (replaceStep (replacer diagrams svgPaths config) content) ms
       (Returns (accumulated, pos, Nat.min k (length svgPaths))))
  = Throws altTextTypeError.
Proof.
  induction ms as [|m ms IH]; intros k accumulated pos Hchain (j & Hj & Hpath & Hnone)
    Hbefore; [simpl in Hj; lia|].
  inversion Hchain as [|? ? ? Hle Htext Hend Hrest]; subst.
  cbn [fold_left].
  assert (Hk : (k < length svgPaths)%nat) by lia.
  destruct (lookup_lt_is_Some_2 svgPaths k Hk) as [svgPath HsvgPath].
  destruct (Nat.lt_ge_cases k (length diagrams)) as [Hd|Hd].
  - destruct (lookup_lt_is_Some_2 diagrams k Hd) as [diagram Hdiagram].
    assert (Hstep : exists accumulated',
      replaceStep (replacer diagrams svgPaths config) content
        (Returns (accumulated, pos, Nat.min k (length svgPaths))) m
      = Returns (accumulated', (matchIndex m + length (match0 m))%nat,
                 Nat.min (S k) (length svgPaths))).
    { unfold replaceStep, replacer. cbn [mbind Completion_bind].
      rewrite Nat.min_l by lia. rewrite HsvgPath, Hdiagram.
      cbn [mbind Completion_bind].
      destruct (Nat.leb_spec pos (matchIndex m)); [|lia].
      eexists. repeat f_equal. lia. }
    destruct Hstep as [accumulated' ->]. apply IH; [done| |].
    + destruct j as [|j]; [rewrite Nat.add_0_r in Hnone; lia|].
      exists j. simpl in Hj. repeat split; lia.
    + intros i Hi Hip. destruct (decide (i = k)) as [->|]; [done|].
      apply Hbefore; lia.
  - assert (Hstep :
      replaceStep (replacer diagrams svgPaths config) content
        (Returns (accumulated, pos, Nat.min k (length svgPaths))) m
      = Throws altTextTypeError).
    { unfold replaceStep, replacer. cbn [mbind Completion_bind].
      rewrite Nat.min_l by lia. rewrite HsvgPath.
      by rewrite (lookup_ge_None_2 diagrams k) by lia. }
    rewrite Hstep, fold_Throws. reflexivity.
Qed.

(** X5 — The rewrite throws exactly when a match that has a path has no
    diagram, that is when there are fewer diagrams than the smaller of the
    number of matches and the number of paths; the exception is the
    TypeError of reading [altText] of undefined.  Otherwise it returns the
    woven text. *)
Theorem rewrite_throws_iff (content : jsstring) (diagrams : list DiagramInfo.t)
    (svgPaths : list jsstring) (config : ProcessorConfig) :
  replaceMermaidBlocks content diagrams svgPaths config
  = if (length diagrams <? Nat.min (length (execAll content)) (length svgPaths))%nat
    then Throws altTextTypeError
    else Returns (weave content 0
                    (imap (pieceFor diagrams svgPaths config) (execAll content))).
Proof.
  destruct (Nat.ltb_spec (length diagrams)
              (Nat.min (length (execAll content)) (length svgPaths))) as [Hfew|Hall].
  - apply (replace_fold_throws content diagrams svgPaths config (execAll content)
             0%nat [] 0%nat).
    + apply execAll_chained.
    + exists (length diagrams). lia.
    + intros i Hi. lia.
  - apply (replace_fold_paths content diagrams svgPaths config (execAll content)
             0%nat [] 0%nat).
    + apply execAll_chained.
    + intros j Hj Hpath. lia.
Qed.

Lemma pieces_without_paths diagrams config k ms :
  imap (fun j => pieceFor diagrams [] config (k + j)) ms
  = map (fun m => (m, match0 m)) ms.
Proof.
  rewrite (imap_ext _ (fun _ m => (m, match0 m))); [apply imap_const|done].
Qed.

(** X6 — With no paths the document is returned as it is, whatever the
    diagrams; and so is, whatever the diagrams and paths, a document that has
    no fenced span. *)
Theorem rewrite_nothing_to_replace (content : jsstring)
    (diagrams : list DiagramInfo.t) (config : ProcessorConfig) :
  replaceMermaidBlocks content diagrams [] config = Returns content /\
  (forall svgPaths, ~ hasFencedSpan content ->
     replaceMermaidBlocks content diagrams svgPaths config = Returns content).
Proof.
  split.
  - transitivity (Returns ([] ++ weave content 0
                    (imap (fun j => pieceFor diagrams [] config (0 + j))
                       (execAll content)))).
    + apply (replace_fold_paths content diagrams [] config (execAll content)
               0%nat [] 0%nat); [apply execAll_chained|].
      intros j _ Hpath. simpl in Hpath. lia.
    + rewrite pieces_without_paths, weave_identity;
        [by rewrite drop_0|apply execAll_chained|lia].
  - intros svgPaths Hnone.
    assert (Hspans : execAll content = []).
    { destruct (execAll content) as [|m ms] eqn:Hall; [done|].
      destruct Hnone. apply execAll_nonempty_iff. by rewrite Hall. }
    unfold replaceMermaidBlocks. rewrite Hspans. simpl. by rewrite drop_0.
Qed.

Lemma rewrite_nothing_to_replace_witness :
  replaceMermaidBlocks (js "# hello") [] [js "out/a.svg"] defaultConfig
  = Returns (js "# hello").
Proof.
  apply (proj2 (rewrite_nothing_to_replace (js "# hello") [] defaultConfig)).
  intros Hspan. apply execAll_nonempty_iff in Hspan. apply Hspan.
  vm_compute. reflexivity.
Defined.

(** ** The public path of an artifact *)

Lemma indexOfFrom_unfold i pattern s :
  indexOfFrom i pattern s =
  if startsWith pattern s then Some i
  else match s with
       | [] => None
       | _ :: s' => indexOfFrom (S i) pattern s'
       end.
Proof. by destruct s. Qed.

Lemma indexOfFrom_prefix pattern rest :
  indexOfFrom 0 pattern (pattern ++ rest) = Some 0%nat.
Proof.
  rewrite indexOfFrom_unfold.
  assert (startsWith pattern (pattern ++ rest) = true) as ->
    by (apply startsWith_app; eauto).
  done.
Qed.

Lemma getSubstitution_cons_plain matched before after c template :
  c <> 36 ->
  getSubstitution matched before after (c :: template)
  = c :: getSubstitution matched before after template.
Proof.
  intros Hc. apply N.eqb_neq in Hc. destruct template as [|d rest].
  - reflexivity.
  - cbn [getSubstitution]. rewrite Hc. reflexivity.
Qed.

Lemma getSubstitution_plain matched before after plain template :
  Forall (fun c => c <> 36) plain ->
  getSubstitution matched before after (plain ++ template)
  = plain ++ getSubstitution matched before after template.
Proof.
  induction 1 as [|c plain Hc _ IH]; [done|].
  change ((c :: plain) ++ template) with (c :: (plain ++ template)).
  rewrite getSubstitution_cons_plain by done. by rewrite IH.
Qed.

(** X7 — The translation of an artifact path to its public path
    ([svgPath.replace(outputDir, baseUrl)]).  A path in which the output
    directory does not occur is left as it is; in a path that starts with
    the output directory that prefix gives way to the base URL when the
    base URL has no dollar sign; a base URL that ends in [$&] brings the
    output directory back after it. *)
Theorem public_path_translation (outputDir baseUrl : jsstring) :
  (forall svgPath, ~ occursIn outputDir svgPath ->
                   stringReplace svgPath outputDir baseUrl = svgPath) /\
  (Forall (fun c => c <> 36) baseUrl ->
   forall rest,
     stringReplace (outputDir ++ rest) outputDir baseUrl = baseUrl ++ rest /\
     stringReplace (outputDir ++ rest) outputDir (baseUrl ++ [36; 38])
     = baseUrl ++ outputDir ++ rest).
Proof.
  split.
  - intros svgPath Hnone. unfold stringReplace.
    destruct (indexOfFrom 0 outputDir svgPath) as [pos|] eqn:Hpos; [|done].
    destruct Hnone. clear -Hpos. revert Hpos. generalize 0%nat.
    induction svgPath as [|c s IH]; intros i; rewrite indexOfFrom_unfold;
      destruct (startsWith outputDir _) eqn:Hstart;
      try (intros _; apply startsWith_app in Hstart as [after ->];
           by exists [], after).
    + done.
    + intros Hrest. destruct (IH _ Hrest) as (before & after & ->).
      by exists (c :: before), after.
  - intros Hplain rest. unfold stringReplace.
    rewrite indexOfFrom_prefix. cbn [take Nat.add]. rewrite drop_app_length.
    split.
    + rewrite <- (app_nil_r baseUrl) at 1.
      rewrite getSubstitution_plain by done. cbn [getSubstitution app].
      by rewrite app_nil_r.
    + rewrite getSubstitution_plain by done. cbn [getSubstitution app].
      change (negb (36 =? 36)) with false. change (38 =? 36) with false.
      change (38 =? 38) with true. cbn iota.
      by rewrite app_nil_r, <- app_assoc.
Qed.

Lemma public_path_translation_witness :
  stringReplace (js "out/a-f202f94e.svg") (js "out") (js "/img")
  = js "/img/a-f202f94e.svg".
Proof.
  destruct (public_path_translation (js "out") (js "/img")) as [_ Hprefix].
  apply (Hprefix ltac:(repeat constructor; discriminate) (js "/a-f202f94e.svg")).
Defined.

(** ** Styles that keep the source *)

Lemma sourceCodeSuffix_keeps_fence config code :
  includeSourceCode config = true ->
  sourceCodeStyle config = StyleInline \/ sourceCodeStyle config = StyleDetails ->
  exists before after,
    sourceCodeSuffix config code = before ++ fenceOpen ++ code ++ fenceClose ++ after.
Proof.
  intros Hinclude [Hstyle|Hstyle]; unfold sourceCodeSuffix;
    rewrite Hinclude, Hstyle; cbn [andb negb bool_decide decide_rel].
  - exists [LF; LF], []. by rewrite app_nil_r.
  - eexists ([LF; LF] ++ js "<details>" ++ [LF]
               ++ js "<summary>View source</summary>" ++ [LF; LF]),
            ([LF; LF] ++ js "</details>").
    by rewrite <- !app_assoc.
Qed.

(** X8 — With the source included in the inline or the details style, the
    rewritten document of a document that has blocks has blocks again: the
    first fenced span is back in it, body and all, after its reference.  A
    second run over the rewritten document therefore finds work to do. *)
Theorem rewritten_document_has_blocks (content : jsstring)
    (svgPaths : list jsstring) (config : ProcessorConfig) :
  includeSourceCode config = true ->
  sourceCodeStyle config = StyleInline \/ sourceCodeStyle config = StyleDetails ->
  extractMermaidDiagrams content <> [] ->
  svgPaths <> [] ->
  exists updatedContent,
    replaceMermaidBlocks content (extractMermaidDiagrams content) svgPaths config
    = Returns updatedContent /\
    extractMermaidDiagrams updatedContent <> [].
Proof.
  intros Hinclude Hstyle Hblocks Hpaths.
  eexists. split; [apply replaceMermaidBlocks_woven|].
  intros Hnone. apply (f_equal length) in Hnone.
  rewrite extractMermaidDiagrams_length in Hnone. apply nil_length_inv in Hnone.
  revert Hnone. apply execAll_nonempty_iff.
  destruct (execAll content) as [|m ms] eqn:Hspans.
  { destruct Hblocks. apply nil_length_inv.
    by rewrite extractMermaidDiagrams_length, Hspans. }
  destruct svgPaths as [|svgPath svgPaths]; [done|].
  cbn [imap]. rewrite weave_cons_pieceFor. unfold pieceFor at 1. cbn [snd lookup list_lookup].
  assert (Hfirst : extractMermaidDiagrams content !! 0%nat = Some (newDiagram 0 m)).
  { apply extractMermaidDiagrams_newDiagram. by rewrite Hspans. }
  rewrite Hfirst.
  destruct (sourceCodeSuffix_keeps_fence config (match1 m) Hinclude Hstyle)
    as (before & after & ->).
  set (reference := imageReference _ _). set (tail := weave _ _ _).
  exists (substring content 0 (matchIndex m) ++ reference ++ before),
         (match1 m), (after ++ tail).
  by rewrite <- !app_assoc.
Qed.

Lemma rewritten_document_has_blocks_witness :
  exists updatedContent,
    replaceMermaidBlocks scenarioDocument (extractMermaidDiagrams scenarioDocument)
      [js "./public/api/articles/t-f202f94e.svg"] defaultConfig
    = Returns updatedContent /\
    extractMermaidDiagrams updatedContent <> [].
Proof.
  apply (rewritten_document_has_blocks scenarioDocument
           [js "./public/api/articles/t-f202f94e.svg"] defaultConfig).
  - reflexivity.
  - left. reflexivity.
  - vm_compute. discriminate.
  - discriminate.
Defined.

(** ** [processFile]: what every call does, and what none does *)

(** X9 — [processFile] never rejects and never hangs: whatever the file
    system holds it returns a result for the path it was given.  The result
    is a success exactly when it carries no error; a failure counts no
    diagram and leaves the file system and the write log as they were.  No
    other path of the file system changes, the cache tables and the
    environment are not touched, and at most one write is made, to the
    document itself: no artifact is written. *)
Theorem processFile_settles (host : Host) (config : ProcessorConfig)
    (filePath : jsstring) (w : World) :
  exists result w',
    processFile host config filePath w = (Returns result, w') /\
    ProcessingResult.filePath result = filePath /\
    (ProcessingResult.success result = true
     <-> ProcessingResult.error result = None) /\
    (ProcessingResult.success result = false ->
     ProcessingResult.diagramsProcessed result = 0%nat /\
     fs w' = fs w /\ writeLog w' = writeLog w) /\
    databases w' = databases w /\ nodeEnv w' = nodeEnv w /\
    (forall path, path <> filePath -> fs w' !! path = fs w !! path) /\
    (writeLog w' = writeLog w \/
     exists data, writeLog w' = writeLog w ++ [(filePath, data)]).
Proof.
  destruct (processFile_outcome host config filePath w)
    as (result & w' & Hrun & Houtcome).
  exists result, w'. split; [exact Hrun|].
  destruct (FileOutcome_effects _ _ _ _ _ _ Houtcome)
    as (Hpath & Hdb & Henv & _ & Hframe & _).
  split; [exact Hpath|].
  destruct Houtcome as [error Hread|content Hread Hnone|content diagrams Hread Hfailed
                |content updated error diagrams w1 Hread Hsome Hfine Hwrite
                |content updated w2 diagrams w1 Hread Hsome Hfine Hupdated Hwrite].
  - repeat split; try done. by left.
  - repeat split; try done. by left.
  - destruct (logRenders_fields w (map (renderCallOf host config) diagrams))
      as (Hfs & _ & _ & Hwrites & _).
    repeat split; try done. by left.
  - destruct (logRenders_fields w (map (renderCallOf host config) diagrams))
      as (Hfs & _ & _ & Hwrites & _).
    repeat split; try done. by left.
  - destruct (logRenders_fields w (map (renderCallOf host config) diagrams))
      as (Hfs & _ & _ & Hwrites & _).
    apply writeFile_Returns_inv in Hwrite as (_ & _ & _ & _ & Hlog).
    repeat split; try done. right. exists updated. subst w1. congruence.
Qed.

Lemma svgPaths_of_results host config filePath diagrams :
  existsb (renderFailed host config) diagrams = false ->
  map (either_fold (fun _ => []) (fun path => path))
    (map (svgResultOf host config filePath) diagrams)
  = map (fun diagram =>
           join host (outputDir config)
             (basename host filePath (extname host filePath) ++ js "-"
                ++ DiagramInfo.id diagram ++ js ".svg")) diagrams.
Proof.
  induction diagrams as [|d diagrams IH]; [done|].
  cbn [existsb map]. intros [Hd Hrest]%orb_false_iff.
  rewrite (IH Hrest). f_equal.
  unfold renderFailed, renderCallOf in Hd. cbn [callFailed] in Hd.
  unfold svgResultOf. by destruct (renderGateway host _ _).
Qed.

Lemma processFile_rendered host config filePath w content writable :
  let diagrams := extractMermaidDiagrams content in
  let svgPaths :=
    map (fun diagram =>
           join host (outputDir config)
             (basename host filePath (extname host filePath) ++ js "-"
                ++ DiagramInfo.id diagram ++ js ".svg")) diagrams in
  let updatedContent :=
    weave content 0 (imap (pieceFor diagrams svgPaths config) (execAll content)) in
  fs w !! filePath = Some (FsFile content true writable) ->
  diagrams <> [] ->
  existsb (renderFailed host config) diagrams = false ->
  processFile host config filePath w
  = tryCatch
      (writeFile filePath updatedContent;;
       mret (ProcessingResult.mk true filePath (length diagrams) None))
      (fun error =>
         mret (ProcessingResult.mk false filePath 0
                 (Some (js "Failed to process file: " ++ error))))
      (logRenders w (map (renderCallOf host config) diagrams)).
Proof.
  intros diagrams svgPaths updatedContent Hfile Hsome Hfine.
  unfold processFile, tryCatch.
  unfold mbind at 1, Async_bind at 1.
  rewrite (readFile_readable _ _ _ _ Hfile).
  destruct (Nat.eqb_spec (length (extractMermaidDiagrams content)) 0) as [Hnone|_].
  { by apply nil_length_inv in Hnone. }
  unfold mbind at 1, Async_bind at 1.
  rewrite mapM_processDiagram, filter_isLeft_length.
  fold diagrams. rewrite Hfine.
  unfold mbind at 1, Async_bind at 1.
  rewrite svgPaths_of_results by done. fold svgPaths.
  unfold diagrams at 1. rewrite replaceMermaidBlocks_woven.
  reflexivity.
Qed.

(** X10 — A document that is rewritten.  When the document can be read
    and written, has blocks, and the gateway renders every one of them,
    [processFile] reports a success that counts every block; the gateway has
    been called once per block, in order; and the document holds the text
    woven from its spans, the reference of the block at position [i]
    pointing to [join(outputDir, basename-id.svg)].  That one write is the
    only one. *)
Theorem processFile_rewrites_document (host : Host) (config : ProcessorConfig)
    (filePath : jsstring) (w : World) (content : jsstring) :
  let diagrams := extractMermaidDiagrams content in
  let svgPaths :=
    map (fun diagram =>
           join host (outputDir config)
             (basename host filePath (extname host filePath) ++ js "-"
                ++ DiagramInfo.id diagram ++ js ".svg")) diagrams in
  let updatedContent :=
    weave content 0 (imap (pieceFor diagrams svgPaths config) (execAll content)) in
  fs w !! filePath = Some (FsFile content true true) ->
  diagrams <> [] ->
  Forall (fun diagram =>
            isLeft (renderGateway host (DiagramInfo.code diagram) (defaultTheme config))
            = false) diagrams ->
  exists w',
    processFile host config filePath w
    = (Returns (ProcessingResult.mk true filePath (length diagrams) None), w') /\
    fs w' = <[filePath := FsFile updatedContent true true]> (fs w) /\
    writeLog w' = writeLog w ++ [(filePath, updatedContent)] /\
    renderLog w' = renderLog w ++ map (renderCallOf host config) diagrams /\
    databases w' = databases w.
Proof.
  intros diagrams svgPaths updatedContent Hfile Hsome Hfine.
  assert (Hnone : existsb (renderFailed host config) diagrams = false).
  { apply not_true_is_false. intros (d & Hd & Hfailed)%existsb_exists.
    rewrite Forall_forall in Hfine. apply list_elem_of_In in Hd.
    specialize (Hfine d Hd). unfold renderFailed, renderCallOf in Hfailed.
    cbn [callFailed] in Hfailed. congruence. }
  rewrite (processFile_rendered host config filePath w content true Hfile Hsome Hnone).
  fold diagrams svgPaths updatedContent.
  destruct (logRenders_fields w (map (renderCallOf host config) diagrams))
    as (Hfs & Hdb & _ & Hwrites & Hrenders).
  unfold tryCatch, mbind, Async_bind, writeFile. rewrite Hfs, Hfile.
  eexists. split; [reflexivity|].
  cbn [fs databases writeLog renderLog logWrite setFs].
  rewrite Hwrites, Hrenders, Hdb. by repeat split.
Qed.

(** X11 — A document that cannot be written.  When the document can be
    read but not written, has blocks, and no render fails, the gateway is
    called for every block all the same, and only then does the file fail,
    with the EACCES error of the write; the document is left as it was. *)
Theorem write_denied_after_rendering (host : Host) (config : ProcessorConfig)
    (filePath : jsstring) (w : World) (content : jsstring) :
  let diagrams := extractMermaidDiagrams content in
  fs w !! filePath = Some (FsFile content true false) ->
  diagrams <> [] ->
  existsb (renderFailed host config) diagrams = false ->
  processFile host config filePath w
  = (Returns
       (failedResult filePath
          (js "Failed to process file: Error: EACCES: permission denied, open "
             ++ quoted filePath)),
     logRenders w (map (renderCallOf host config) diagrams)).
Proof.
  intros diagrams Hfile Hsome Hfine. subst diagrams.
  rewrite (processFile_rendered host config filePath w content false Hfile Hsome Hfine).
  destruct (logRenders_fields w
              (map (renderCallOf host config) (extractMermaidDiagrams content)))
    as (Hfs & _).
  unfold tryCatch, mbind, Async_bind, writeFile. rewrite Hfs, Hfile.
  cbn [mret Async_ret]. unfold failedResult. rewrite app_assoc. reflexivity.
Qed.

Lemma processFile_rewrites_document_witness :
  exists w',
    processFile draftHost defaultConfig (js "docs/a.md") twinWorld
    = (Returns (ProcessingResult.mk true (js "docs/a.md")
                  (length (extractMermaidDiagrams scenarioDocument)) None), w').
Proof.
  destruct (processFile_rewrites_document draftHost defaultConfig (js "docs/a.md")
              twinWorld scenarioDocument) as (w' & Hrun & _).
  - vm_compute. reflexivity.
  - vm_compute. discriminate.
  - apply Forall_forall. intros d _. reflexivity.
  - exists w'. exact Hrun.
Defined.

Lemma write_denied_after_rendering_witness :
  processFile draftHost defaultConfig (js "docs/locked.md") readOnlyWorld
  = (Returns
       (failedResult (js "docs/locked.md")
          (js "Failed to process file: Error: EACCES: permission denied, open "
             ++ quoted (js "docs/locked.md"))),
     logRenders readOnlyWorld
       (map (renderCallOf draftHost defaultConfig)
          (extractMermaidDiagrams scenarioDocument))).
Proof.
  apply (write_denied_after_rendering draftHost defaultConfig (js "docs/locked.md")
           readOnlyWorld scenarioDocument).
  - vm_compute. reflexivity.
  - vm_compute. discriminate.
  - vm_compute. reflexivity.
Defined.

(** ** The placeholder renderer *)





(** X13 — Linked with the placeholder renderer, [processFile] succeeds on
    every document it can read and write, counting every block: the branch
    that collects render errors is never taken. *)
Theorem placeholder_never_fails_a_file (host : Host) (config : ProcessorConfig)
    (filePath : jsstring) (w : World) (content : jsstring) :
  renderGateway host = generateSvg ->
  fs w !! filePath = Some (FsFile content true true) ->
  (processFile host config filePath w).1
  = Returns (ProcessingResult.mk true filePath
               (length (extractMermaidDiagrams content)) None).
Proof.
  intros Hgateway Hfile.
  destruct (extractMermaidDiagrams content) as [|d ds] eqn:Hblocks.
  - unfold processFile, tryCatch. unfold mbind at 1, Async_bind at 1.
    rewrite (readFile_readable _ _ _ _ Hfile), Hblocks. reflexivity.
  - assert (Hfine : existsb (renderFailed host config)
                      (extractMermaidDiagrams content) = false).
    { apply not_true_is_false. intros (x & _ & Hfailed)%existsb_exists.
      unfold renderFailed, renderCallOf in Hfailed. cbn [callFailed] in Hfailed.
      rewrite Hgateway in Hfailed. discriminate Hfailed. }
    rewrite (processFile_rendered host config filePath w content true Hfile);
      [|by rewrite Hblocks|done].
    destruct (logRenders_fields w
                (map (renderCallOf host config) (extractMermaidDiagrams content)))
      as (Hfs & _).
    unfold tryCatch, mbind, Async_bind, writeFile. rewrite Hfs, Hfile.
    by rewrite Hblocks.
Qed.

Lemma placeholder_never_fails_a_file_witness :
  (processFile draftHost defaultConfig (js "docs/a.md") twinWorld).1
  = Returns (ProcessingResult.mk true (js "docs/a.md")
               (length (extractMermaidDiagrams scenarioDocument)) None).
Proof.
  apply (placeholder_never_fails_a_file draftHost defaultConfig (js "docs/a.md")
           twinWorld scenarioDocument).
  - reflexivity.
  - vm_compute. reflexivity.
Defined.

(** ** [analyzeFile] *)

Lemma analyzeFile_readable filePath w content writable :
  fs w !! filePath = Some (FsFile content true writable) ->
  analyzeFile filePath w
  = (Returns
       (Right {| totalMermaidBlocks := length (extractMermaidDiagrams content);
                 hasUnprocessedBlocks :=
                   (0 <? length (extractMermaidDiagrams content))%nat;
                 needsProcessing :=
                   (0 <? length (extractMermaidDiagrams content))%nat |}), w).
Proof.
  intros Hfile. unfold analyzeFile, tryCatch. unfold mbind at 1, Async_bind at 1.
  by rewrite (readFile_readable _ _ _ _ Hfile).
Qed.

(** X14 — [analyzeFile] never rejects and only reads.  It returns a
    [Left] exactly when the file cannot be read, the message naming the file
    and the error; for a file it can read it counts the fenced spans, and
    says that the file needs processing exactly when there is one. *)
Theorem analyzeFile_settles (filePath : jsstring) (w : World) :
  exists outcome,
    analyzeFile filePath w = (Returns outcome, w) /\
    match fs w !! filePath with
    | Some (FsFile content true _) =>
        exists analysis,
          outcome = Right analysis /\
          totalMermaidBlocks analysis = length (execAll content) /\
          hasUnprocessedBlocks analysis = needsProcessing analysis /\
          (needsProcessing analysis = true <-> hasFencedSpan content)
    | _ =>
        exists error,
          readFile filePath w = (Throws error, w) /\
          outcome = Left (js "Failed to analyze file " ++ filePath ++ js ": " ++ error)
    end.
Proof.
  destruct (fs w !! filePath) as [[content [] writable|entries]|] eqn:Hfile.
  - eexists. split; [by eapply analyzeFile_readable|].
    eexists. split; [reflexivity|]. cbn [totalMermaidBlocks hasUnprocessedBlocks
                                           needsProcessing].
    rewrite extractMermaidDiagrams_length. split; [done|]. split; [done|].
    rewrite <- execAll_nonempty_iff. rewrite Nat.ltb_lt.
    destruct (execAll content); simpl; split; (done || lia).
  - unfold analyzeFile, tryCatch, mbind, Async_bind, readFile. rewrite Hfile.
    eexists. split; [reflexivity|]. eexists. split; reflexivity.
  - unfold analyzeFile, tryCatch, mbind, Async_bind, readFile. rewrite Hfile.
    eexists. split; [reflexivity|]. eexists. split; reflexivity.
  - unfold analyzeFile, tryCatch, mbind, Async_bind, readFile. rewrite Hfile.
    eexists. split; [reflexivity|]. eexists. split; reflexivity.
Qed.

(** X15 — What [analyzeFile] reports is what [processFile] then does: the
    gateway is called as many times as blocks were counted; a file said not
    to need processing is a success that leaves the world as it was; and a
    successful result counts the blocks the analysis counted. *)
Theorem analysis_predicts_processing (host : Host) (config : ProcessorConfig)
    (filePath : jsstring) (w w0 : World) (analysis : FileAnalysis) :
  analyzeFile filePath w = (Returns (Right analysis), w0) ->
  exists result w',
    processFile host config filePath w = (Returns result, w') /\
    length (newRenderCalls w w') = totalMermaidBlocks analysis /\
    (needsProcessing analysis = false ->
     w' = w /\ result = ProcessingResult.mk true filePath 0 None) /\
    (ProcessingResult.success result = true ->
     ProcessingResult.diagramsProcessed result = totalMermaidBlocks analysis).
Proof.
  intros Hanalysis.
  destruct (fs w !! filePath) as [[content [] writable|entries]|] eqn:Hfile;
    try (unfold analyzeFile, tryCatch, mbind, Async_bind, readFile in Hanalysis;
         rewrite Hfile in Hanalysis; discriminate Hanalysis).
  rewrite (analyzeFile_readable _ _ _ _ Hfile) in Hanalysis.
  injection Hanalysis as <- <-.
  cbn [totalMermaidBlocks needsProcessing].
  destruct (processFile_outcome host config filePath w)
    as (result & w' & Hrun & Houtcome).
  exists result, w'. split; [exact Hrun|].
  pose proof (readFile_readable _ _ _ _ Hfile) as Hread.
  destruct (FileOutcome_effects _ _ _ _ _ _ Houtcome) as (_ & _ & _ & Hlog & _).
  unfold plannedCalls in Hlog. rewrite Hfile in Hlog.
  split.
  { unfold newRenderCalls. by rewrite Hlog, drop_app_length, length_map. }
  destruct Houtcome as [error Hread'|content' Hread' Hnone|content' diagrams Hread' Hfailed
                |content' updated error diagrams w1 Hread' Hsome Hfine Hwrite
                |content' updated w2 diagrams w1 Hread' Hsome Hfine Hupdated Hwrite];
    rewrite Hread in Hread'; try discriminate Hread';
    injection Hread' as <-.
  - rewrite Hnone. by split.
  - subst diagrams. split; [|done]. intros Hzero%Nat.ltb_ge.
    assert (Hnil : extractMermaidDiagrams content = [])
      by (apply nil_length_inv; lia).
    by rewrite Hnil in Hfailed.
  - subst diagrams. split; [|done]. intros Hzero%Nat.ltb_ge.
    destruct Hsome. apply nil_length_inv. lia.
  - subst diagrams. split; [|done]. intros Hzero%Nat.ltb_ge.
    destruct Hsome. apply nil_length_inv. lia.
Qed.

Lemma analysis_predicts_processing_witness :
  exists result w',
    processFile draftHost defaultConfig (js "docs/notes.md") plainWorld
    = (Returns result, w') /\
    length (newRenderCalls plainWorld w') = 0%nat.
Proof.
  destruct (analysis_predicts_processing draftHost defaultConfig (js "docs/notes.md")
              plainWorld plainWorld
              {| totalMermaidBlocks := 0; hasUnprocessedBlocks := false;
                 needsProcessing := false |})
    as (result & w' & Hrun & Hcalls & _).
  - vm_compute. reflexivity.
  - exists result, w'. split; [exact Hrun|exact Hcalls].
Defined.

(** ** [processDirectory]: the degree of concurrency *)

Lemma mapM_app_Returns {A B} (f : A -> Async B) l1 l2 w r1 w1 r2 w2 :
  mapM f l1 w = (Returns r1, w1) ->
  mapM f l2 w1 = (Returns r2, w2) ->
  mapM f (l1 ++ l2) w = (Returns (r1 ++ r2), w2).
Proof.
  revert w r1. induction l1 as [|x l1 IH]; intros w r1 H1 H2.
  - injection H1 as <- <-. exact H2.
  - rewrite mapM_cons in H1.
    apply bind_Returns_inv in H1 as (y & wy & Hy & H1).
    apply bind_Returns_inv in H1 as (k & wk & Hk & H1).
    injection H1 as <- <-.
    change ((x :: l1) ++ l2) with (x :: (l1 ++ l2)).
    rewrite mapM_cons, (bind_Returns _ _ _ _ _ Hy).
    by rewrite (bind_Returns _ _ _ _ _ (IH _ _ Hk H2)).
Qed.

(** The chunks are processed as their files are, one after the other. *)
Lemma processChunks_files host config chunks results w :
  exists results' w',
    mapM (processFile host config) (concat chunks) w = (Returns results', w') /\
    processChunks host config chunks results w = (Returns (results ++ results'), w').
Proof.
  revert results w. induction chunks as [|chunk chunks IH]; intros results w.
  - exists [], w. by rewrite app_nil_r.
  - destruct (mapM_processFile host config chunk w)
      as (chunkResults & w1 & Hchunk & _).
    destruct (IH (results ++ chunkResults) w1) as (rest & w2 & Hfiles & Hrest).
    exists (chunkResults ++ rest), w2. split.
    + cbn [concat]. by eapply mapM_app_Returns.
    + cbn [processChunks]. rewrite (bind_Returns _ _ _ _ _ Hchunk).
      by rewrite Hrest, <- app_assoc.
Qed.

(** With a degree of concurrency of one or more, a run is the walk
    followed by the documents processed one after the other. *)
Lemma processDirectory_sequential host fuel config w files :
  getMarkdownFiles host fuel (inputDir config) w = (Returns files, w) ->
  (length files < fuel)%nat ->
  numberLe (Finite 1) (concurrent config) = true ->
  exists results w',
    mapM (processFile host config) files w = (Returns results, w') /\
    processDirectory host fuel config w = (Returns (computeStats results), w').
Proof.
  intros Hwalk Hfuel Hc.
  destruct (chunkLoop_from_one fuel files (concurrent config) Hc Hfuel)
    as (chunks & Hloop & Hconcat & _).
  destruct (processChunks_files host config chunks [] w)
    as (results & w' & Hfiles & Hchunks).
  rewrite Hconcat in Hfiles. exists results, w'. split; [exact Hfiles|].
  unfold processDirectory. rewrite (bind_Returns _ _ _ _ _ Hwalk).
  unfold mbind at 1, Async_bind at 1. rewrite Hloop.
  erewrite bind_Returns; [reflexivity|exact Hchunks].
Qed.

(** X17 — A degree of concurrency of zero or less.  With no document
    found, [processDirectory] returns the zero statistics; with one or more
    it never returns, and no document is read: nothing is rendered and
    nothing is written. *)
Theorem nonpositive_concurrency (host : Host) (fuel : nat)
    (config : ProcessorConfig) (w : World) (files : list jsstring) :
  getMarkdownFiles host fuel (inputDir config) w = (Returns files, w) ->
  numberLe (concurrent config) (Finite 0) = true ->
  processDirectory host fuel config w
  = (match files with [] => Returns noStats | _ :: _ => Diverges end, w).
Proof.
  intros Hwalk Hc. unfold processDirectory.
  rewrite (bind_Returns _ _ _ _ _ Hwalk).
  unfold mbind at 1, Async_bind at 1.
  destruct files as [|file files].
  - destruct fuel as [|fuel]; [discriminate Hwalk|]. reflexivity.
  - by rewrite chunkLoop_stuck.
Qed.

Lemma nonpositive_concurrency_witness :
  processDirectory draftHost 8
    (withConcurrent (createConfig twinOverrides) (Finite 0)) twinWorld
  = (Diverges, twinWorld).
Proof.
  apply (nonpositive_concurrency draftHost 8
           (withConcurrent (createConfig twinOverrides) (Finite 0)) twinWorld
           [js "docs/a.md"; js "docs/b.md"]).
  - vm_compute. reflexivity.
  - reflexivity.
Defined.

(** ** [getMarkdownFiles] *)

Lemma statIsDirectory_Returns_inv path w isDirectory w1 :
  statIsDirectory path w = (Returns isDirectory, w1) ->
  w1 = w /\
  if isDirectory then exists entries, fs w !! path = Some (FsDir entries)
  else exists content readable writable,
         fs w !! path = Some (FsFile content readable writable).
Proof.
  unfold statIsDirectory.
  destruct (fs w !! path) as [[content r wr|entries]|]; intros [= <- <-]; eauto 6.
Qed.

Lemma readdir_Returns_inv path w entries w1 :
  readdir path w = (Returns entries, w1) ->
  w1 = w /\ fs w !! path = Some (FsDir entries).
Proof.
  unfold readdir.
  destruct (fs w !! path) as [[content r wr|entries']|]; intros [= <- <-]; eauto.
Qed.

Lemma forEntries_discovered host recurse currentDir allEntries w :
  (forall dir files result w1,
     recurse dir files w = (Returns result, w1) ->
     w1 = w /\
     (Forall (discovered host w) files -> Forall (discovered host w) result)) ->
  fs w !! currentDir = Some (FsDir allEntries) ->
  forall entries files result w',
  (forall entry, In entry entries -> In entry allEntries) ->
  forEntries host recurse currentDir entries files w = (Returns result, w') ->
  Forall (discovered host w) files ->
  w' = w /\ Forall (discovered host w) result.
Proof.
  intros Hrecurse Hdir.
  induction entries as [|entry entries IH]; intros files result w' Hsub Hrun Hfiles.
  - by injection Hrun as <- <-.
  - cbn [forEntries] in Hrun.
    apply bind_Returns_inv in Hrun as (isDirectory & w1 & Hstat & Hrun).
    apply statIsDirectory_Returns_inv in Hstat as [-> Hnode].
    apply bind_Returns_inv in Hrun as (files' & w2 & Hstep & Hrun).
    assert (Hnext : w2 = w /\ Forall (discovered host w) files').
    { destruct isDirectory.
      - destruct (Hrecurse _ _ _ _ Hstep) as [-> Hkeep]. auto.
      - destruct (isMarkdownFile host entry) eqn:Hmd;
          injection Hstep as <- <-; split; try done.
        apply Forall_app. split; [done|]. constructor; [|constructor].
        exists currentDir, allEntries, entry.
        repeat split; try done. apply Hsub. by left. }
    destruct Hnext as [-> Hfiles'].
    apply (IH files'); [|done..]. intros e He. apply Hsub. by right.
Qed.

Lemma walkDirectory_discovered host fuel w :
  forall currentDir files result w',
  walkDirectory host fuel currentDir files w = (Returns result, w') ->
  w' = w /\ (Forall (discovered host w) files -> Forall (discovered host w) result).
Proof.
  induction fuel as [|fuel IH]; intros currentDir files result w' Hrun;
    [discriminate Hrun|].
  cbn [walkDirectory] in Hrun.
  apply bind_Returns_inv in Hrun as (entries & w1 & Hread & Hrun).
  apply readdir_Returns_inv in Hread as [-> Hdir].
  split.
  - pose proof (walkDirectory_world host (S fuel) currentDir files w) as Hworld.
    cbn [walkDirectory] in Hworld. unfold mbind at 1, Async_bind at 1 in Hworld.
    unfold readdir at 1 in Hworld. rewrite Hdir in Hworld.
    by rewrite Hrun in Hworld.
  - intros Hfiles.
    by destruct (forEntries_discovered host (walkDirectory host fuel) currentDir
                   entries w IH Hdir entries files result w') as [_ Hresult].
Qed.

(** X18 — The walk only reads, and every path it returns is a document it
    has seen: the join of a directory of the file system and one of the
    names that directory lists, a name with the extension [.md] or [.mdx]
    in any case of letters, and a path that is a file, not a directory. *)
Theorem walk_returns_documents (host : Host) (fuel : nat) (dir : jsstring)
    (w w' : World) (files : list jsstring) :
  getMarkdownFiles host fuel dir w = (Returns files, w') ->
  w' = w /\ Forall (discovered host w) files.
Proof.
  intros Hrun. apply walkDirectory_discovered in Hrun as [-> Hfiles].
  split; [done|]. apply Hfiles. constructor.
Qed.

Lemma forEntries_flat host recurse dir w :
  forall entries files,
  Forall (fun entry =>
            exists content readable writable,
              fs w !! join host dir entry = Some (FsFile content readable writable))
    entries ->
  forEntries host recurse dir entries files w
  = (Returns (files ++ map (join host dir)
                         (List.filter (isMarkdownFile host) entries)), w).
Proof.
  induction entries as [|entry entries IH]; intros files Hflat.
  - by rewrite app_nil_r.
  - apply Forall_cons in Hflat as [(content & r & wr & Hfile) Hflat].
    cbn [forEntries List.filter]. unfold mbind at 1, Async_bind at 1.
    unfold statIsDirectory at 1. rewrite Hfile.
    unfold mbind at 1, Async_bind at 1.
    destruct (isMarkdownFile host entry); cbn [mret Async_ret].
    + rewrite IH by done. cbn [map]. by rewrite <- app_assoc.
    + by rewrite IH.
Qed.

(** X19 — A directory without sub-directories.  The walk returns the
    names with a document extension, joined to the directory, in the order
    in which [readdir] lists them. *)
Theorem flat_directory_listing (host : Host) (fuel : nat) (dir : jsstring)
    (w : World) (entries : list jsstring) :
  fs w !! dir = Some (FsDir entries) ->
  Forall (fun entry =>
            exists content readable writable,
              fs w !! join host dir entry = Some (FsFile content readable writable))
    entries ->
  getMarkdownFiles host (S fuel) dir w
  = (Returns (map (join host dir) (List.filter (isMarkdownFile host) entries)), w).
Proof.
  intros Hdir Hflat. unfold getMarkdownFiles. cbn [walkDirectory].
  unfold mbind at 1, Async_bind at 1. unfold readdir at 1. rewrite Hdir.
  by rewrite forEntries_flat.
Qed.

Lemma walk_returns_documents_witness :
  Forall (discovered draftHost mixedWorld)
    [js "docs/one.md"; js "docs/none.md"; js "docs/sub/two.mdx"].
Proof.
  apply (walk_returns_documents draftHost 8 (js "docs") mixedWorld mixedWorld).
  vm_compute. reflexivity.
Defined.

Lemma flat_directory_listing_witness :
  getMarkdownFiles draftHost 1 (js "docs") twinWorld
  = (Returns (map (join draftHost (js "docs"))
                (List.filter (isMarkdownFile draftHost) [js "a.md"; js "b.md"])),
     twinWorld).
Proof.
  apply (flat_directory_listing draftHost 0 (js "docs") twinWorld
           [js "a.md"; js "b.md"]).
  - vm_compute. reflexivity.
  - repeat constructor; exists scenarioDocument, true, true; vm_compute; reflexivity.
Defined.

(** X20 — A name that [readdir] lists and [stat] does not find.  In a
    directory whose earlier names are files, the walk rejects with the
    ENOENT error of that [stat]: no list of documents is returned, the
    documents already seen are lost with it. *)
Theorem dangling_entry_fails_the_walk (host : Host) (fuel : nat) (dir : jsstring)
    (w : World) (before after : list jsstring) (entry : jsstring) :
  fs w !! dir = Some (FsDir (before ++ entry :: after)) ->
  Forall (fun name =>
            exists content readable writable,
              fs w !! join host dir name = Some (FsFile content readable writable))
    before ->
  fs w !! join host dir entry = None ->
  getMarkdownFiles host (S fuel) dir w
  = (Throws (js "Error: ENOENT: no such file or directory, stat "
               ++ quoted (join host dir entry)), w).
Proof.
  intros Hdir Hbefore Hentry. unfold getMarkdownFiles. cbn [walkDirectory].
  unfold mbind at 1, Async_bind at 1. unfold readdir at 1. rewrite Hdir.
  clear Hdir. generalize (@nil jsstring) as files.
  induction Hbefore as [|name before (content & r & wr & Hfile) _ IH]; intros files.
  - cbn [app forEntries]. unfold mbind at 1, Async_bind at 1.
    unfold statIsDirectory at 1. by rewrite Hentry.
  - cbn [app forEntries]. unfold mbind at 1, Async_bind at 1.
    unfold statIsDirectory at 1. rewrite Hfile.
    unfold mbind at 1, Async_bind at 1.
    destruct (isMarkdownFile host name); cbn [mret Async_ret]; apply IH.
Qed.

Lemma dangling_entry_fails_the_walk_witness :
  getMarkdownFiles draftHost 1 (js "docs") danglingWorld
  = (Throws (js "Error: ENOENT: no such file or directory, stat "
               ++ quoted (join draftHost (js "docs") (js "gone.md"))), danglingWorld).
Proof.
  apply (dangling_entry_fails_the_walk draftHost 0 (js "docs") danglingWorld
           [js "a.md"] [js "b.md"] (js "gone.md")).
  - vm_compute. reflexivity.
  - repeat constructor; exists scenarioDocument, true, true; vm_compute; reflexivity.
  - vm_compute. reflexivity.
Defined.

(** ** [processMermaidDiagrams] *)

Lemma processMermaidDiagrams_cases host fuel userConfig w :
  processMermaidDiagrams host fuel userConfig w
  = match truthyPath (dbPath (effectiveConfig w userConfig)) with
    | Some path =>
        match Database.init path w with
        | (Returns _, w1) =>
            runResult (processDirectory host fuel (effectiveConfig w userConfig) w1)
        | (Throws error, w1) =>
            (Returns (Left (js "Database initialization failed: " ++ error)), w1)
        | (Diverges, w1) => (Diverges, w1)
        end
    | None => runResult (processDirectory host fuel (effectiveConfig w userConfig) w)
    end.
Proof.
  unfold processMermaidDiagrams, effectiveConfig, runResult.
  destruct (truthyPath _) as [path|].
  - unfold Database.safeInit, Database.safely, tryCatch, mbind, Async_bind, mret,
      Async_ret.
    destruct (Database.init path w) as [[connection|error|] w1];
      cbn [either_fold]; [|done..].
    by destruct (processDirectory host fuel _ w1) as [[stats|error|] w2].
  - unfold tryCatch, mbind, Async_bind, mret, Async_ret.
    by destruct (processDirectory host fuel _ w) as [[stats|error|] w2].
Qed.

Lemma init_cases path w :
  (exists error, Database.init path w = (Throws error, w)) \/
  (exists w1, Database.init path w = (Returns (Some path), w1) /\
              fs w1 = fs w /\ nodeEnv w1 = nodeEnv w /\
              renderLog w1 = renderLog w /\ writeLog w1 = writeLog w /\
              databases w1
              = match databases w !! path with
                | Some _ => databases w
                | None => <[path := ∅]> (databases w)
                end).
Proof.
  unfold Database.init.
  destruct (fs w !! path) as [[content r wr|entries]|]; [right|left; eauto|right];
    eexists; (split; [reflexivity|]); by destruct (databases w !! path).
Qed.

Lemma chunkLoop_never_throws fuel files c i chunks error :
  chunkLoop fuel files c i chunks <> Throws error.
Proof.
  revert i chunks. induction fuel as [|fuel IH]; intros i chunks; [done|].
  cbn [chunkLoop]. destruct (numberLt i (numberOfNat (length files)));
    [apply IH|done].
Qed.

(** Where a completed or failed call of [processDirectory] can come from:
    it throws only what the walk throws. *)
Lemma processDirectory_Throws host fuel config w error w' :
  processDirectory host fuel config w = (Throws error, w') ->
  w' = w /\ getMarkdownFiles host fuel (inputDir config) w = (Throws error, w).
Proof.
  unfold processDirectory. unfold mbind at 1, Async_bind at 1.
  pose proof (walkDirectory_world host fuel (inputDir config) [] w) as Hworld.
  unfold getMarkdownFiles.
  destruct (walkDirectory host fuel (inputDir config) [] w) as [[files|e|] w1];
    simpl in Hworld; subst w1;
    [|by intros [= -> <-]|intros Hrun; discriminate Hrun].
  unfold mbind at 1, Async_bind at 1.
  pose proof (chunkLoop_never_throws fuel files (concurrent config) (Finite 0) [])
    as Hloop.
  destruct (chunkLoop fuel files (concurrent config) (Finite 0) []) as [chunks|e|];
    [|by destruct (Hloop e)|intros Hrun; discriminate Hrun].
  destruct (processChunks_run host config chunks [] w) as (results & w2 & Hrun & _).
  unfold mbind at 1, Async_bind at 1. by rewrite Hrun.
Qed.

(** X21 — The run fails for the cache database or for the walk, never for
    a document.  [processMermaidDiagrams] never rejects; when it returns a
    [Left], either the database could not be opened, and the message says
    so, or the walk threw, and the message is [Processing failed:] followed
    by its error. *)
Theorem run_fails_for_database_or_walk (host : Host) (fuel : nat)
    (userConfig : PartialConfig) (w : World) :
  let config := effectiveConfig w userConfig in
  match (processMermaidDiagrams host fuel userConfig w).1 with
  | Throws _ => False
  | Diverges => True
  | Returns (Right _) => True
  | Returns (Left message) =>
      (exists path error,
          truthyPath (dbPath config) = Some path /\
          Database.init path w = (Throws error, w) /\
          message = js "Database initialization failed: " ++ error) \/
      (exists error w1,
          fs w1 = fs w /\
          getMarkdownFiles host fuel (inputDir config) w1 = (Throws error, w1) /\
          message = js "Processing failed: " ++ error)
  end.
Proof.
  intros config. rewrite processMermaidDiagrams_cases. fold config.
  assert (Hdirectory : forall w1, fs w1 = fs w ->
    match (runResult (processDirectory host fuel config w1)).1 with
    | Throws _ => False
    | Diverges => True
    | Returns (Right _) => True
    | Returns (Left message) =>
        (exists path error,
            truthyPath (dbPath config) = Some path /\
            Database.init path w = (Throws error, w) /\
            message = js "Database initialization failed: " ++ error) \/
        (exists error w2,
            fs w2 = fs w /\
            getMarkdownFiles host fuel (inputDir config) w2 = (Throws error, w2) /\
            message = js "Processing failed: " ++ error)
    end).
  { intros w1 Hfs.
    destruct (processDirectory host fuel config w1) as [[stats|error|] w2] eqn:Hrun;
      cbn [runResult fst]; [done| |done].
    apply processDirectory_Throws in Hrun as [-> Hwalk]. right. by exists error, w1. }
  destruct (truthyPath (dbPath config)) as [path|] eqn:Hpath; [|by apply Hdirectory].
  destruct (init_cases path w) as [[error Hinit]|(w1 & Hinit & Hfs & _)];
    rewrite Hinit.
  - left. by exists path, error.
  - by apply Hdirectory.
Qed.

(** X22 — A cache database that cannot be opened stops the run before the
    walk: no document is read, nothing is rendered or written. *)
Theorem database_failure_stops_the_run (host : Host) (fuel : nat)
    (userConfig : PartialConfig) (w : World) (path error : jsstring) :
  truthyPath (dbPath (effectiveConfig w userConfig)) = Some path ->
  Database.init path w = (Throws error, w) ->
  processMermaidDiagrams host fuel userConfig w
  = (Returns (Left (js "Database initialization failed: " ++ error)), w).
Proof.
  intros Hpath Hinit. by rewrite processMermaidDiagrams_cases, Hpath, Hinit.
Qed.

Lemma database_failure_stops_the_run_witness :
  processMermaidDiagrams draftHost 8 directoryAsDatabase twinWorld
  = (Returns
       (Left (js "Database initialization failed: "
                ++ js "Error: SQLITE_CANTOPEN: unable to open database file")),
     twinWorld).
Proof.
  apply (database_failure_stops_the_run draftHost 8 directoryAsDatabase twinWorld
           (js "docs")).
  - vm_compute. reflexivity.
  - vm_compute. reflexivity.
Defined.

(** X23 — Failed documents do not fail the run.  Without a cache
    database, when the walk finds the documents and the degree of
    concurrency is at least one, [processMermaidDiagrams] returns a [Right]
    whatever happens to the documents: they are all counted as processed,
    the failed ones among them as errors. *)
Theorem failed_documents_do_not_fail_the_run (host : Host) (fuel : nat)
    (userConfig : PartialConfig) (w : World) (files : list jsstring) :
  let config := effectiveConfig w userConfig in
  truthyPath (dbPath config) = None ->
  getMarkdownFiles host fuel (inputDir config) w = (Returns files, w) ->
  (length files < fuel)%nat ->
  numberLe (Finite 1) (concurrent config) = true ->
  exists stats w',
    processMermaidDiagrams host fuel userConfig w = (Returns (Right stats), w') /\
    filesProcessed stats = length files /\
    (errors stats <= length files)%nat.
Proof.
  intros config Hpath Hwalk Hfuel Hc.
  destruct (processDirectory_sequential host fuel config w files Hwalk Hfuel Hc)
    as (results & w' & Hfiles & Hrun).
  exists (computeStats results), w'.
  rewrite processMermaidDiagrams_cases. fold config. rewrite Hpath, Hrun.
  split; [reflexivity|].
  destruct (mapM_processFile host config files w) as (results' & w'' & Hfiles' & Hruns).
  rewrite Hfiles in Hfiles'. injection Hfiles' as <- <-.
  apply FilesRun_filePaths in Hruns. apply (f_equal length) in Hruns.
  rewrite length_map in Hruns. cbn [computeStats filesProcessed errors].
  split; [done|]. rewrite <- Hruns. apply List.filter_length_le.
Qed.

Lemma failed_documents_do_not_fail_the_run_witness :
  exists stats w',
    processMermaidDiagrams pickyHost 8 (overrideDirs "docs" "out" "/img")
      threeBlocksWorld
    = (Returns (Right stats), w') /\
    filesProcessed stats = 1%nat.
Proof.
  destruct (failed_documents_do_not_fail_the_run pickyHost 8
              (overrideDirs "docs" "out" "/img") threeBlocksWorld
              [js "docs/three.md"])
    as (stats & w' & Hrun & Hcount & _).
  - vm_compute. reflexivity.
  - vm_compute. reflexivity.
  - simpl. lia.
  - vm_compute. reflexivity.
  - exists stats, w'. split; [exact Hrun|exact Hcount].
Defined.

(** ** The cache database *)

(** X26 — The safe operations never reject, and what goes wrong comes
    back as a [Left] that names the operation.  Before [init], the lookup
    and the store fail for the missing connection, and [close] succeeds;
    none of them changes the world. *)
Theorem safe_operations_never_reject (db : Database.Connection)
    (dbPath hash path : jsstring) (w : World) :
  (exists outcome w', Database.safeInit dbPath w = (Returns outcome, w')) /\
  (exists outcome, Database.safeClose db w = (Returns outcome, w)) /\
  (exists outcome, Database.safeCheckCached db hash w = (Returns outcome, w)) /\
  (exists outcome w', Database.safeStore db hash path w = (Returns outcome, w')) /\
  Database.safeCheckCached None hash w
  = (Returns (Left (js "Cache check failed: Error: Database not initialized")), w) /\
  Database.safeStore None hash path w
  = (Returns (Left (js "Cache store failed: Error: Database not initialized")), w) /\
  Database.safeClose None w = (Returns (Right None), w).
Proof.
  unfold Database.safeInit, Database.safeClose, Database.safeCheckCached,
    Database.safeStore, Database.safely, tryCatch, mbind, Async_bind, mret, Async_ret.
  repeat split.
  - unfold Database.init.
    destruct (fs w !! dbPath) as [[content r wr|entries]|]; eauto.
  - unfold Database.close, mret, Async_ret. eauto.
  - unfold Database.checkCached.
    destruct db as [file|]; [destruct (databases w !! file)|]; eauto.
  - unfold Database.store.
    destruct db as [file|]; [destruct (databases w !! file)|]; eauto.
Qed.

(** ** [utils.ts] *)

(** X27 — [pipe] applies the functions from the first to the last,
    [compose] from the last to the first: composing is piping the reversed
    list, piping two lists one after the other is piping their
    concatenation, and composing a concatenation composes the second list
    first.  [curry] applied to both arguments is the function itself. *)
Theorem pipe_and_compose {T} (fns gns : list (T -> T)) (value : T) :
  compose fns value = pipe (rev fns) value /\
  pipe (fns ++ gns) value = pipe gns (pipe fns value) /\
  compose (fns ++ gns) value = compose fns (compose gns value) /\
  forall (U V : Type) (fn : T -> U -> V) (b : U), curry fn value b = fn value b.
Proof.
  unfold pipe, compose. split; [|split; [|split]].
  - rewrite <- fold_left_rev_right, rev_involutive. reflexivity.
  - apply fold_left_app.
  - apply fold_right_app.
  - reflexivity.
Qed.

(** X28 — [Either] and [Maybe] are monads in which the failure absorbs
    what follows.  [flatMap] has [Right] as a unit on both sides and is
    associative; [map] is [flatMap] followed by [Right]; [fold] after [map]
    folds with the mapped function; a value is a [Left] exactly when it is
    not a [Right].  For [Maybe], [map] is [flatMap] followed by [Maybe.of],
    so that a function returning null maps a value to nothing; [filter]
    with two predicates in turn is [filter] with both; and [getOrElse]
    returns the default exactly when there is no value. *)
Theorem either_and_maybe_laws {L R U V : Type} (e : Either L R) (m : Maybe R)
    (a : R) (fn : R -> Either L U) (gn : U -> Either L V) (f : R -> U)
    (fnull : R -> option U) (gmaybe : U -> Maybe V) (p q : R -> bool)
    (leftFn : L -> V) (rightFn : U -> V) (defaultValue : R) :
  either_flatMap fn (Right a) = fn a /\
  either_flatMap Right e = e /\
  either_flatMap gn (either_flatMap fn e)
  = either_flatMap (fun x => either_flatMap gn (fn x)) e /\
  either_map f e = either_flatMap (fun x => Right (f x)) e /\
  either_fold leftFn rightFn (either_map f e)
  = either_fold leftFn (fun x => rightFn (f x)) e /\
  isLeft e = negb (isRight e) /\
  (forall l : L, either_flatMap fn (Left l) = Left l) /\
  Maybe_map fnull m = Maybe_flatMap (fun x => Maybe_of (fnull x)) m /\
  Maybe_flatMap gmaybe (Maybe_flatMap fnull m)
  = Maybe_flatMap (fun x => Maybe_flatMap gmaybe (fnull x)) m /\
  Maybe_filter p (Maybe_filter q m) = Maybe_filter (fun x => q x && p x) m /\
  Maybe_isNone m = negb (Maybe_isSome m) /\
  (Maybe_isNone m = true -> Maybe_getOrElse defaultValue m = defaultValue) /\
  (Maybe_isSome m = true -> Maybe_of (Some (Maybe_getOrElse defaultValue m)) = m).
Proof.
  repeat split; try (by destruct e); try (by destruct m).
  destruct m as [x|]; [|done]. unfold Maybe_filter.
  destruct (q x); [|done]. cbn. by destruct (p x).
Qed.

Lemma either_and_maybe_laws_witness :
  Maybe_getOrElse 7%nat (Maybe_filter Nat.even (Maybe_of (Some 3%nat))) = 7%nat.
Proof.
  refine (proj1 (proj2 (proj2 (proj2 (proj2 (proj2 (proj2 (proj2 (proj2 (proj2
            (proj2 (proj2
               (@either_and_maybe_laws unit nat nat nat (Right 0%nat)
                  (Maybe_filter Nat.even (Maybe_of (Some 3%nat))) 0%nat
                  Right Right (fun x => x) Some Some Nat.even Nat.even
                  (fun _ => 0%nat) (fun x => x) 7%nat)))))))))))) _).
  reflexivity.
Defined.

(** ** [asyncPipe] and [createProcessingPipeline] *)

Lemma bind_mret {A} (m : Async A) w : (a ← m; mret a) w = m w.
Proof. unfold mbind, Async_bind. by destruct (m w) as [[a|e|] w1]. Qed.

(** X29 — [asyncPipe] awaits its steps from the first to the last: the
    pipe of a concatenation is the pipe of the first list followed by the
    pipe of the second, and a step that rejects ends the pipe with its
    error, the later steps not being called.  The pipeline of
    [createProcessingPipeline] is [processDirectory], whatever value it is
    started with. *)
Theorem asyncPipe_steps {T} (fns gns : list (T -> Async T)) (value : T)
    (w : World) :
  asyncPipe (fns ++ gns) value w
  = (result ← asyncPipe fns value; asyncPipe gns result) w /\
  (forall error w1, asyncPipe fns value w = (Throws error, w1) ->
     asyncPipe (fns ++ gns) value w = (Throws error, w1)) /\
  forall host fuel config seed,
    createProcessingPipeline host fuel config seed w
    = processDirectory host fuel config w.
Proof.
  assert (Happ : forall value w,
            asyncPipe (fns ++ gns) value w
            = (result ← asyncPipe fns value; asyncPipe gns result) w).
  { clear value w. induction fns as [|fn fns IH]; intros value w; [done|].
    cbn [app asyncPipe]. unfold mbind, Async_bind in *.
    destruct (fn value w) as [[result|error|] w1]; [apply IH|done..]. }
  split; [apply Happ|]. split.
  - intros error w1 Hfails. rewrite Happ. unfold mbind, Async_bind.
    by rewrite Hfails.
  - intros host fuel config seed. unfold createProcessingPipeline.
    cbn [asyncPipe]. apply bind_mret.
Qed.

Lemma asyncPipe_steps_witness :
  asyncPipe ([fun _ : nat => throw (js "Error: stop")] ++ [fun n => mret (S n)])
    0%nat plainWorld
  = (Throws (js "Error: stop"), plainWorld).
Proof.
  apply (proj1 (proj2 (asyncPipe_steps [fun _ : nat => throw (js "Error: stop")]
                         [fun n => mret (S n)] 0%nat plainWorld))).
  reflexivity.
Defined.

(** ** The environment *)

Lemma processChunks_withVerbose host config v chunks results w :
  processChunks host (withVerbose config v) chunks results w
  = processChunks host config chunks results w.
Proof.
  revert results w. induction chunks as [|chunk chunks IH]; intros results w;
    [done|].
  cbn [processChunks]. unfold mbind, Async_bind.
  change (processFile host (withVerbose config v)) with (processFile host config).
  destruct (mapM (processFile host config) chunk w) as [[chunkResults| |] w1];
    [apply IH|done..].
Qed.

Lemma processDirectory_withVerbose host fuel config v w :
  processDirectory host fuel (withVerbose config v) w
  = processDirectory host fuel config w.
Proof.
  unfold processDirectory.
  change (inputDir (withVerbose config v)) with (inputDir config).
  change (concurrent (withVerbose config v)) with (concurrent config).
  unfold mbind, Async_bind.
  destruct (getMarkdownFiles host fuel (inputDir config) w) as [[files| |] w1];
    [|done..].
  destruct (chunkLoop fuel files (concurrent config) (Finite 0) []) as [chunks| |];
    [|done..].
  by rewrite processChunks_withVerbose.
Qed.

(** X30 — [NODE_ENV] decides the [verbose] flag and nothing else:
    [production] clears it and [development] sets it whatever the caller
    asked for, any other value leaves the configuration as it is; and since
    nothing reads the flag, a run of [processDirectory] is the same with and
    without the adjustment. *)
Theorem environment_sets_verbose_only (env : option jsstring)
    (config : ProcessorConfig) (host : Host) (fuel : nat) (w : World) :
  let adjusted := applyEnvironmentConfig env config in
  (forall v, withVerbose adjusted v = withVerbose config v) /\
  (env = Some (js "production") -> verbose adjusted = false) /\
  (env = Some (js "development") -> verbose adjusted = true) /\
  (env <> Some (js "production") -> env <> Some (js "development") ->
   adjusted = config) /\
  processDirectory host fuel adjusted w = processDirectory host fuel config w.
Proof.
  intros adjusted. subst adjusted. unfold applyEnvironmentConfig.
  repeat split.
  - intros v. by repeat case_bool_decide.
  - intros ->. by rewrite bool_decide_eq_true_2.
  - intros ->. rewrite bool_decide_eq_false_2 by discriminate.
    by rewrite bool_decide_eq_true_2.
  - intros Hp Hd. by rewrite !bool_decide_eq_false_2.
  - repeat case_bool_decide; try done; apply processDirectory_withVerbose.
Qed.

Lemma environment_sets_verbose_only_witness :
  verbose (applyEnvironmentConfig (Some (js "production")) defaultConfig) = false.
Proof.
  exact (proj1 (proj2 (environment_sets_verbose_only (Some (js "production"))
                         defaultConfig draftHost 8 twinWorld))
           eq_refl).
Defined.
